(** * slotgame: the GameService round engine

    A shallow embedding of [GameService] (the cascading slot engine of the
    repository) and the properties of its fill, match, clear and gravity
    steps.

    Conventions of the embedding.
    - JavaScript numbers that the engine uses as integers (bids, balances,
      multipliers, symbol kinds, ids) are [Z]; array positions are [nat].
    - A [GroupedItems] object ([{ [index: number]: number }]) is a
      [gmap Z Z]; [for (k in o)] enumerates its property names, which are
      strings, and the model keeps that (see [property_name]).
    - A board under construction ([(number | null)[]]) is a
      [list (option Z)], [None] being [null]; a shown board ([number[]]) is
      a [list Z].
    - [Math.random()] is a read of an explicit random source: a function
      from the number of draws made so far to a value of [[0,1)]. *)

From Stdlib Require Import ZArith QArith Qround Lia List Permutation.
From Stdlib Require Import DecimalString.
From stdpp Require Import base tactics option list sorting gmap fin_maps.

#[local] Open Scope Z_scope.

(** ** JavaScript primitives used by the engine *)

(** The name under which a numeric key is stored in an object, as
    [for ... in] returns it: the decimal string of the number. *)
Definition property_name (k : Z) : String.string :=
  NilZero.string_of_int (Z.to_int k).

(** Truthiness of a string: every string but the empty one is truthy. *)
Definition truthy_string (s : String.string) : bool :=
  match s with
  | String.EmptyString => false
  | String.String _ _ => true
  end.

(** Truthiness of a number (no NaN among integers): non-zero. *)
Definition truthy (n : Z) : bool := negb (n =? 0).

(** Truthiness of [o[k]]: a missing property reads [undefined]. *)
Definition truthy_prop (v : option Z) : bool :=
  match v with
  | Some n => truthy n
  | None => false
  end.

(** [a || b] on numbers. *)
Definition js_or (a b : Z) : Z := if truthy a then a else b.

(** [Math.round] on a rational: the nearest integer, halves upwards. *)
Definition Math_round (q : Q) : Z := Qfloor (q + (1 # 2)).

(** A value of [Math.random()]: a rational of [[0,1)]. *)
Record Random01 : Type := mkRandom01 {
  rval : Q;
  rval_range : (0 <=? Qnum rval) && (Qnum rval <? Z.pos (Qden rval)) = true
}.

(** [a[i] = v] on an array: inside the array the cell is replaced; past
    the end JavaScript grows the array, the cells in between reading as
    empty. *)
Definition array_set {A} (i : nat) (v : option A) (l : list (option A))
  : list (option A) :=
  if (i <? length l)%nat then <[i := v]> l
  else l ++ replicate (i - length l) None ++ [v].

(** [a[i] == null]: true of [null] and of a read outside the array. *)
Definition is_null {A} (c : option (option A)) : bool :=
  match c with
  | Some (Some _) => false
  | _ => true
  end.

(** ** The tables *)

(** Cumulative thresholds of the ten symbol kinds. *)
Definition itemsRanges : list Q :=
  [ 1 # 100; 3 # 100; 7 # 100; 16 # 100; 28 # 100;
    40 # 100; 52 # 100; 68 # 100; 84 # 100; 1 # 1 ]%Q.

(** Rewards, [itemsRewards[kind][amount]]. *)
Definition itemsRewards : list (gmap Z Z) :=
  [ {[ 4 := 6; 5 := 10; 6 := 200 ]};
    {[ 8 := 20; 9 := 20; 10 := 50; 11 := 50; 12 := 100 ]};
    {[ 8 := 6; 9 := 6; 10 := 20; 11 := 20; 12 := 60 ]};
    {[ 8 := 4; 9 := 4; 10 := 10; 11 := 10; 12 := 30 ]};
    {[ 8 := 2; 9 := 2; 10 := 4; 11 := 4; 12 := 20 ]};
    {[ 8 := 2; 9 := 2; 10 := 4; 11 := 4; 12 := 20 ]};
    {[ 8 := 2; 9 := 2; 10 := 4; 11 := 4; 12 := 20 ]};
    {[ 8 := 1; 9 := 1; 10 := 2; 11 := 2; 12 := 10 ]};
    {[ 8 := 1; 9 := 1; 10 := 2; 11 := 2; 12 := 10 ]};
    {[ 8 := 1; 9 := 1; 10 := 2; 11 := 2; 12 := 10 ]} ].

(** Showcase combinations, [[itemType, amountOfGeneratedItems]]. *)
Definition showcaseCombinations : list (Z * nat) :=
  [ (0, 4%nat); (1, 8%nat); (2, 8%nat); (3, 8%nat) ].

(** [itemsRewards[item]] for a property name [item]: the table entry when
    the name is an index of the table, [undefined] otherwise. *)
Definition rewards_of (item : Z) : option (gmap Z Z) :=
  if (0 <=? item) then itemsRewards !! Z.to_nat item else None.

(** ** Matching *)

(** [groupItems]: [groups[item] = groups[item] + 1 || 1] for each item. *)
Definition groupItems (items : list Z) : gmap Z Z :=
  foldl (fun groups item =>
           <[ item := match groups !! item with
                      | Some c => js_or (c + 1) 1
                      | None => 1
                      end ]> groups)
        ∅ items.

(** The body of the loop of [findCombinations] for one property [item] of
    [groups] holding [amount]; [add] is [itemsRewards[item]]. *)
Definition combination (add : gmap Z Z) (item amount : Z) : option Z :=
  let key := Z.min amount (if truthy_string (property_name item) then 12 else 6) in
  if truthy_prop (add !! key) then add !! key else None.

(** [findCombinations]. Reading [add[key]] when [itemsRewards[item]] is
    [undefined] throws a TypeError: the result is then [None]. Each
    iteration writes its own key of [math] only, so the order in which
    [for ... in] visits the properties does not show in the result. *)
Definition findCombinations (groups : gmap Z Z) : option (gmap Z Z) :=
  if decide (map_Forall (fun item _ => is_Some (rewards_of item)) groups)
  then Some (map_imap (fun item amount =>
                         add ← rewards_of item; combination add item amount)
                      groups)
  else None.

(** [blowItems]: the positions whose item has a truthy entry in [math]. *)
Definition blowItems (show : list Z) (math : gmap Z Z) : list nat :=
  omap (fun '(i, item) => if truthy_prop (math !! item) then Some i else None)
       (zip (seq 0 (length show)) show).

(** [calculateReward]: the entries of [math] summed, times the bid. *)
Definition calculateReward (bid : Z) (math : gmap Z Z) : Z :=
  map_fold (fun _ v reward => reward + v) 0 math * bid.

(** ** Gravity *)

(** The inner loop of [moveItems], [for (j = i - 1; j >= lo; j--)] with
    [i = lo + n]: the nearest position above [i] in the column that holds
    an item, with that item. *)
Fixpoint search_up (last : list (option Z)) (lo n : nat) : option (nat * Z) :=
  match n with
  | O => None
  | S n' =>
      match last !! (lo + n')%nat with
      | Some (Some v) => Some ((lo + n')%nat, v)
      | _ => search_up last lo n'
      end
  end.

(** The body of the two outer loops of [moveItems] at position [i] of the
    column starting at [lo]:
    [[ move[j], last[i], last[j] ] = [ i, last[j], null ]]. *)
Definition settle (lo i : nat) (st : gmap nat nat * list (option Z))
  : gmap nat nat * list (option Z) :=
  let '(move, last) := st in
  if is_null (last !! i) then
    match search_up last lo (i - lo) with
    | Some (j, v) => (<[ j := i ]> move, array_set j None (array_set i (Some v) last))
    | None => st
    end
  else st.

(** [for (y = 0; y < 4; y++)] of column [x], with [i = x * 5 + (4 - y)]. *)
Definition settle_column (st : gmap nat nat * list (option Z)) (x : nat)
  : gmap nat nat * list (option Z) :=
  foldl (fun st y => settle (x * 5) (x * 5 + (4 - y)) st) st (seq 0 4).

(** The board with the blown positions cleared. *)
Definition clear (show : list Z) (blow : list nat) : list (option Z) :=
  imap (fun i v => if bool_decide (i ∈ blow) then None else Some v) show.

(** [moveItems]: the pair [(move, last)]. *)
Definition moveItems (show : list Z) (blow : list nat)
  : gmap nat nat * list (option Z) :=
  foldl settle_column (∅, clear show blow) (seq 0 6).

(** ** The service *)

(** The fields of a [GameService]. *)
Record GameService : Type := mkGameService {
  balance : Z;
  index : Z;
  fails : Z
}.

(** The service together with the number of [Math.random()] calls made so
    far, which is the position of the next draw in the random source. *)
Record World : Type := mkWorld {
  service : GameService;
  draws : nat
}.

Definition set_balance (b : Z) (w : World) : World :=
  mkWorld (mkGameService b (index (service w)) (fails (service w))) (draws w).
Definition set_index (i : Z) (w : World) : World :=
  mkWorld (mkGameService (balance (service w)) i (fails (service w))) (draws w).
Definition set_fails (f : Z) (w : World) : World :=
  mkWorld (mkGameService (balance (service w)) (index (service w)) f) (draws w).
Definition add_draws (n : nat) (w : World) : World :=
  mkWorld (service w) (draws w + n).

(** The [info] field of a round. *)
Record Info : Type := mkInfo {
  reward : Z;
  profit : Z;
  info_balance : Z
}.

Record RoundInfo : Type := mkRoundInfo {
  id : Z;
  bid : Z;
  info : Info;
  show : list Z;
  math : gmap Z Z;
  blow : list nat;
  move : gmap nat nat;
  last : list (option Z)
}.

(** What a call comes to: a value, a TypeError thrown on the way, or a
    loop still running when the fuel of the model is spent. *)
Inductive result (A : Type) : Type :=
| Returned (a : A)
| TypeError
| OutOfFuel.
Arguments Returned {A} a.
Arguments TypeError {A}.
Arguments OutOfFuel {A}.

#[global] Instance result_bind : MBind result := fun A B k r =>
  match r with
  | Returned a => k a
  | TypeError => TypeError
  | OutOfFuel => OutOfFuel
  end.

(** A value that is [undefined] where an object is required. *)
Definition required {A} (o : option A) : result A :=
  match o with
  | Some a => Returned a
  | None => TypeError
  end.

(** [itemsRanges.findIndex((v) => random <= v)], [-1] when no threshold
    is reached. *)
Fixpoint findIndex_from (n : Z) (ranges : list Q) (random : Q) : Z :=
  match ranges with
  | [] => -1
  | v :: rest => if Qle_bool random v then n else findIndex_from (n + 1) rest random
  end.

Definition findIndex (random : Q) : Z := findIndex_from 0 itemsRanges random.

(** The comparator [(a, b) => a[1] > b[1] ? 1 : 0] of [fakeItems]. *)
Definition fake_order (a b : Z * Q) : Z :=
  if negb (Qle_bool (snd a) (snd b)) then 1 else 0.

Section Service.

(** The random source: [random n] is what the [n]-th call of
    [Math.random()] returns. *)
Variable random : nat -> Random01.

(** [Array.prototype.sort]. The comparator of [fakeItems] is not a
    consistent order, so what the sort does with it depends on the engine;
    it is left open here. *)
Variable sort : forall A : Type, (A -> A -> Z) -> list A -> list A.

(** [fakeItems]: thirty pairs [[k % 10, Math.random()]], sorted, and their
    first components. *)
Definition fakeItems (w : World) : list Z * World :=
  (fst <$> sort _ fake_order
             (imap (fun k _ => (Z.of_nat k `mod` 10, rval (random (draws w + k))))
                   (replicate 30 0)),
   add_draws 30 w).

(** The [forEach] of the showcase branch of [fillItems]: [amount] writes
    of [type] at positions [Math.round(Math.random() * 29)]. *)
Fixpoint showcase_writes (type : Z) (amount : nat) (d : nat)
    (items : list (option Z)) : list (option Z) :=
  match amount with
  | O => items
  | S amount' =>
      showcase_writes type amount' (S d)
        (array_set (Z.to_nat (Math_round (rval (random d) * 29))) (Some type) items)
  end.

(** The [items.map] of [fillItems]: one draw per cell, used when the cell
    is [null]. *)
Fixpoint fill_cells (d : nat) (items : list (option Z)) : list Z :=
  match items with
  | [] => []
  | item :: rest =>
      match item with
      | None => findIndex (rval (random d))
      | Some k => k
      end :: fill_cells (S d) rest
  end.

(** [fillItems]. Destructuring [showcaseCombinations[random]] throws when
    the position is outside the table. The showcase branch writes into the
    array it is given; [spin] hands it a fresh array on the first round of
    a wager, the only round on which [fails] can exceed 3 (the branch
    resets it), so the write is never seen through another reference. *)
Definition fillItems (w : World) (items : list (option Z))
  : result (list Z * World) :=
  if 3 <? fails (service w) then
    let w := set_fails 0 w in
    let pick := Z.to_nat (Math_round (rval (random (draws w))
                            * inject_Z (Z.of_nat (length showcaseCombinations) - 1))) in
    '(type, amount) ← required (showcaseCombinations !! pick);
    let items := showcase_writes type amount (S (draws w)) items in
    let w := add_draws (S amount) w in
    Returned (fill_cells (draws w) items, add_draws (length items) w)
  else Returned (fill_cells (draws w) items, add_draws (length items) w).

(** The variables of [spin] that live across the rounds of a wager. *)
Record Locals : Type := mkLocals {
  l_items : list (option Z);
  l_profit : Z;
  l_balance : Z
}.

(** The body of the [do ... while] of [spin]: one round. *)
Definition round (idle : bool) (bid : Z) (w : World) (l : Locals)
  : result (RoundInfo * World * Locals) :=
  let id := index (service w) + 1 in
  let w := set_index id w in
  '(show, w) ← (if idle then Returned (fakeItems w) else fillItems w (l_items l));
  let groups := groupItems show in
  math ← required (findCombinations groups);
  let blow := blowItems show math in
  let '(move, last) := moveItems show blow in
  let reward := calculateReward bid math in
  let profit := l_profit l + reward in
  let balance := l_balance l + reward in
  let info := mkInfo reward profit balance in
  Returned (mkRoundInfo id bid info show math blow move last, w,
            mkLocals last profit balance).

(** The [do ... while (reward > 0)] of [spin]; [rounds.push] is the cons
    of the round on the rounds that follow it. The source has no bound on
    the number of rounds: [fuel] is the number of rounds the model may
    run, and [OutOfFuel] says the loop was still going. *)
Fixpoint rounds_loop (fuel : nat) (idle : bool) (bid : Z) (w : World) (l : Locals)
  : result (list RoundInfo * World * Locals) :=
  match fuel with
  | O => OutOfFuel
  | S fuel' =>
      '(r, w, l) ← round idle bid w l;
      if 0 <? reward (info r) then
        '(rounds, w, l) ← rounds_loop fuel' idle bid w l;
        Returned (r :: rounds, w, l)
      else Returned ([r], w, l)
  end.

(** [spin]. *)
Definition spin (fuel : nat) (bid : Z) (w : World)
  : result (list RoundInfo * World) :=
  let idle := (bid <=? 0) || (balance (service w) <? bid) in
  '(rounds, w, l) ← rounds_loop fuel idle bid w
                      (mkLocals (replicate 30 None) 0 (balance (service w) - bid));
  let w := if negb idle then set_balance (l_balance l) w else w in
  let w := if (length rounds =? 1)%nat
           then set_fails (fails (service w) + 1) w
           else set_fails 0 w in
  Returned (rounds, w).

(** A sequence of wagers on one service, with the results in order. *)
Fixpoint spins (fuel : nat) (bids : list Z) (w : World)
  : result (list (list RoundInfo) * World) :=
  match bids with
  | [] => Returned ([], w)
  | bid :: bids' =>
      '(rounds, w) ← spin fuel bid w;
      '(results, w) ← spins fuel bids' w;
      Returned (rounds :: results, w)
  end.

(** The [n]-th round (from 0) that the loop of [spin] runs if the
    [while] test lets it get there, with the state after it. *)
Fixpoint nth_round (n : nat) (idle : bool) (bid : Z) (w : World) (l : Locals)
  : result (RoundInfo * World * Locals) :=
  match n with
  | O => round idle bid w l
  | S n' =>
      '(_, w, l) ← round idle bid w l;
      nth_round n' idle bid w l
  end.

End Service.

(** [new GameService(balance)]. *)
Definition new_GameService (balance : Z) : World :=
  mkWorld (mkGameService balance 0 0) 0.

(** [x] put into [l] before the first [y] with [cmp x y <= 0]. *)
Fixpoint insert_by {A} (cmp : A -> A -> Z) (x : A) (l : list A) : list A :=
  match l with
  | [] => [x]
  | y :: l' => if 0 <? cmp x y then y :: insert_by cmp x l' else x :: l
  end.

(** One possible [Array.prototype.sort]: insertion sort. *)
Definition insertion_sort (A : Type) (cmp : A -> A -> Z) (l : list A) : list A :=
  foldr (insert_by cmp) [] l.

(** A draw [n / d]. *)
Definition rnd (n : Z) (d : positive)
    (H : (0 <=? n) && (n <? Z.pos d) = true) : Random01 :=
  mkRandom01 (n # d) H.

(** A draw that the threshold search turns into the kind [k] (kind 9 for
    any [k] above 8). *)
Definition draw_of_kind (k : nat) : Random01 :=
  match k with
  | 0%nat => rnd 0 100 eq_refl
  | 1%nat => rnd 2 100 eq_refl
  | 2%nat => rnd 5 100 eq_refl
  | 3%nat => rnd 10 100 eq_refl
  | 4%nat => rnd 20 100 eq_refl
  | 5%nat => rnd 30 100 eq_refl
  | 6%nat => rnd 50 100 eq_refl
  | 7%nat => rnd 60 100 eq_refl
  | 8%nat => rnd 80 100 eq_refl
  | _ => rnd 90 100 eq_refl
  end.

(** A constant random source. *)
Definition always (r : Random01) : nat -> Random01 := fun _ => r.

(** The random source that goes through draws of the given kinds, again
    and again. *)
Definition source_of_kinds (ks : list nat) : nat -> Random01 :=
  fun n => draw_of_kind (nth (n mod length ks) ks 0%nat).

(** Thirty draws that fill an empty board with eight cells of kind 1 (the
    first eight) and no other winning group, then thirty draws that fill
    the cells this clears without a winning group. *)
Definition win_then_lose : list nat :=
  [ 1; 1; 1; 1; 1; 1; 1; 1; 2; 3; 4; 5; 6; 7; 8; 9; 0; 2; 3; 4; 5; 6; 7; 8; 9; 0; 2; 3; 4; 5;
    0; 1; 2; 3; 4; 5; 6; 7; 8; 9; 0; 1; 2; 3; 4; 5; 6; 7; 8; 9; 0; 1; 2; 3; 4; 5; 6; 7; 8; 9 ]%nat.

(** Draws that fill an empty board with six cells of each of the kinds 5
    to 9. *)
Definition six_of_five : list nat := [ 5; 5; 6; 6; 7; 7; 8; 8; 9; 9 ]%nat.

(** The kinds that [fakeItems] shuffles: three of each. *)
Definition fake_kinds : list Z := (fun k => Z.of_nat k `mod` 10) <$> seq 0 30.

(** ** Notions the properties are stated with *)

(** The number of cells of [items] that hold the kind [k]. *)
Definition tally (k : Z) (items : list Z) : Z :=
  Z.of_nat (count_occ Z.eq_dec items k).

(** A symbol kind. *)
Definition kind (k : Z) : Prop := 0 <= k <= 9.

(** A fully filled board: thirty cells, each holding a symbol kind. *)
Definition filled_board (show : list Z) : Prop :=
  length show = 30%nat /\ Forall kind show.

(** A board: thirty cells, each empty or holding a symbol kind. *)
Definition board (items : list (option Z)) : Prop :=
  length items = 30%nat /\ Forall (fun c => from_option kind True c) items.

(** What [findCombinations] writes for a kind held by [amount] cells, if
    anything. *)
Definition credited (k amount : Z) : option Z :=
  add ← rewards_of k; combination add k amount.

(** The integers [lo, lo + 1, ..., lo + n - 1]. *)
Definition range (lo : Z) (n : nat) : list Z := (fun i => lo + Z.of_nat i) <$> seq 0 n.

(** The cells of column [x] of a board, top to bottom. *)
Definition column {A} (x : nat) (cells : list A) : list A :=
  take 5 (drop (x * 5) cells).

(** The items of a column of cells, top to bottom. *)
Definition survivors (cells : list (option Z)) : list Z := omap (fun c => c) cells.

(** The sum of the multipliers of a matched-group map, over its entries. *)
Definition multipliers (math : gmap Z Z) : Z :=
  foldr Z.add 0 (snd <$> map_to_list math).

(** The ids of a list of rounds. *)
Definition ids (rounds : list RoundInfo) : list Z := id <$> rounds.

(** The payout a kind gets for an amount of 1 to 30 cells, checked over
    the whole table: nothing below 4 cells (kind 0) or 8 cells (the
    others); for the kinds 1 to 9 an amount above 12 pays what 12 pays,
    and 12 pays; kind 0 is paid for 4, 5 and 6 cells and for no amount
    above (the cap that applies to its property name is 12, not 6). *)
Definition payout_check (k amount : Z) : bool :=
  match credited k amount with
  | Some m =>
      (if k =? 0 then (4 <=? amount) && (amount <=? 6) else 8 <=? amount)
      && negb (m =? 0)
  | None =>
      if k =? 0 then (amount <? 4) || (6 <? amount) else amount <? 8
  end
  && (if (negb (k =? 0)) && (12 <? amount)
      then bool_decide (credited k amount = (rewards_of k ≫= fun add => add !! 12))
      else true).

(** A board with seven cells of kind 0. *)
Definition seven_of_kind0 : list Z :=
  replicate 7 0 ++ [1; 2; 3; 4; 5; 6; 7; 8; 9; 1; 2; 3; 4; 5; 6; 7; 8; 9; 1; 2; 3; 4; 5].

(** A board with fifteen cells of kind 1. *)
Definition fifteen_of_kind1 : list Z :=
  replicate 15 1 ++ [0; 2; 3; 4; 5; 6; 7; 8; 9; 0; 2; 3; 4; 5; 6].

(** Every entry of a move map sends a position to another position of
    the same column. *)
Definition within_columns (move : gmap nat nat) : Prop :=
  forall from to, move !! from = Some to -> (from / 5 = to / 5)%nat /\ from <> to.

(** The board after [settle]; it does not depend on the move map. *)
Definition gravity (lo i : nat) (last : list (option Z)) : list (option Z) :=
  (settle lo i (∅, last)).2.

(** A column compacted downward: the empty cells on top, the items below
    in their order. *)
Definition compact (col : list (option Z)) : list (option Z) :=
  replicate (length col - length (survivors col)) None ++ (Some <$> survivors col).

(** The items of column [x] of [show] that are not at a blown position,
    top to bottom. *)
Definition unblown (x : nat) (show : list Z) (blow : list nat) : list Z :=
  omap (fun i => if bool_decide (i ∈ blow) then None else show !! i) (seq (x * 5) 5).

(** Whether [spin(bid)] is idle on the service of [w]. *)
Definition idle_bid (bid : Z) (w : World) : bool :=
  (bid <=? 0) || (balance (service w) <? bid).

(** The reward of the [n]-th round (from 0) that [spin(bid)] runs on [w]
    if its loop gets there; [None] if a round throws on the way. *)
Definition reward_at (random : nat -> Random01)
    (sort : forall A : Type, (A -> A -> Z) -> list A -> list A)
    (n : nat) (bid : Z) (w : World) : option Z :=
  match nth_round random sort n (idle_bid bid w) bid w
          (mkLocals (replicate 30 None) 0 (balance (service w) - bid)) with
  | Returned (r, _, _) => Some (reward (info r))
  | _ => None
  end.

(** The value of [fails] once the first fill of [spin(bid)] is done: the
    showcase branch of [fillItems], which an idle wager does not reach,
    resets it. *)
Definition fails_after_fill (bid : Z) (w : World) : Z :=
  if negb (idle_bid bid w) && (3 <? fails (service w)) then 0 else fails (service w).

(** Where the item of position [p] is after gravity: where [move] sends
    it, or [p] itself when [move] has no entry for it. *)
Definition destination (move : gmap nat nat) (p : nat) : nat := default p (move !! p).

(** What the loops of [moveItems] keep true of [(move, last)], for the
    cleared board [start] they began with and the positions [untouched]
    that no step has written an item into yet: the entries of [move] go
    down from a surviving item to a position that is no longer untouched;
    an untouched position still holds what the cleared board held, or is
    empty if its item was moved away; and every surviving item is in [last]
    at its destination. *)
Definition gravity_inv (start : list (option Z)) (untouched : nat -> Prop)
    (st : gmap nat nat * list (option Z)) : Prop :=
  length st.2 = length start /\
  (forall p q, st.1 !! p = Some q ->
     ~ untouched q /\ (p < q)%nat /\ exists v, start !! p = Some (Some v)) /\
  (forall p, untouched p ->
     match st.1 !! p with
     | None => st.2 !! p = start !! p
     | Some _ => st.2 !! p = Some None
     end) /\
  (forall p v, start !! p = Some (Some v) ->
     st.2 !! destination st.1 p = Some (Some v)).

(** The number of cells that hold the item [type]. *)
Definition holding (type : Z) (items : list (option Z)) : nat :=
  length (filter (fun c => c = Some type) items).

(** The rewards of a list of rounds, added up. *)
Definition rewards (rounds : list RoundInfo) : Z :=
  foldr Z.add 0 ((fun r => reward (info r)) <$> rounds).

(** [show] has the items of [items] where [items] has any. *)
Definition keeps (items : list (option Z)) (show : list Z) : Prop :=
  length show = length items /\
  forall p v, items !! p = Some (Some v) -> show !! p = Some v.

(** ** The play desk *)

Module PlayDesk.

(** The properties [render] passes to the item at a position, those that
    depend on the round: [move] is [move[i] % 5], which is [NaN] when the
    round's move map has no entry for the position ([None] here). *)
Record ItemProps : Type := mkItemProps {
  row : nat;
  line : nat;
  type : Z;
  blow : bool;
  move : option nat;
  swap : bool
}.

(** [lastItemsState[i] != item]: false only when the remembered cell
    holds that very item; [null] and a missing cell differ from any item. *)
Definition differs (cell : option (option Z)) (item : Z) : bool :=
  match cell with
  | Some (Some v) => negb (v =? item)
  | _ => true
  end.

(** The [itemProps] of [render] for the cell [i] of [show], from the
    fields of the round and the items remembered from the render before. *)
Definition itemProps (blown : list nat) (moved : gmap nat nat)
    (lastItemsState : list (option Z)) (i : nat) (item : Z) : ItemProps :=
  mkItemProps (i mod 5) (i / 5) item
    (bool_decide (i ∈ blown))
    ((fun to => to mod 5)%nat <$> moved !! i)
    (differs (lastItemsState !! i) item).

(** The order of two entries of an object by their keys. *)
Definition key_le (a b : Z * Z) : Prop := a.1 <= b.1.

#[global] Instance key_le_dec : RelDecision key_le := fun a b => decide (a.1 <= b.1).

(** [Object.values(o)] for an object whose keys are array indices, as
    those of a round's [math] are: the values in ascending order of the
    keys. *)
Definition Object_values (o : gmap Z Z) : list Z :=
  snd <$> merge_sort key_le (map_to_list o).

(** The amounts of the messages that [onItemBlow] sets when the last
    blown item of a round reports: [reward * round.bid] for each value of
    [round.math]. *)
Definition messages (bid0 : Z) (math0 : gmap Z Z) : list Z :=
  (fun reward0 => reward0 * bid0) <$> Object_values math0.

End PlayDesk.

(** [else if (move)] of an item's appear animation: the item is moved
    after it appeared when its [move] is a number other than 0. *)
Definition moves_after_appear (p : PlayDesk.ItemProps) : bool :=
  match PlayDesk.move p with
  | Some m => negb (m =? 0)%nat
  | None => false
  end.

(** ** The game screen *)

Module GameScreen.

(** [service.balance]. *)
Definition service_balance (w : World) : Z := balance (service w).

(** [round.info.balance] and [round.info.profit]. *)
Definition info_of_balance (r : RoundInfo) : Z := info_balance (info r).
Definition info_of_profit (r : RoundInfo) : Z := profit (info r).

(** The state of the screen. *)
Record GameState : Type := mkGameState {
  rounds : list RoundInfo;
  balance : Z;
  profit : Z;
  round : nat;
  ready : bool;
  turbo : bool;
  auto : Z;
  bid : Z;
  sound : bool;
  locked : bool
}.

(** The initial state of the component, for a service of the given
    balance. *)
Definition initial (service_balance0 : Z) : GameState :=
  mkGameState [] service_balance0 0 0 false false 0 1 true true.

Section Handlers.

Variable random : nat -> Random01.
Variable sort : forall A : Type, (A -> A -> Z) -> list A -> list A.

(** [doSpin(bid)]: the balance shown is the balance of the service less
    the bid, read before the wager; the rounds are those of the wager. The
    fields named in [setState] replace those of the state. *)
Definition doSpin (fuel : nat) (bid0 : Z) (s : GameState) (w : World)
  : result (GameState * World) :=
  let balance0 := service_balance w - bid0 in
  '(rounds0, w) ← spin random sort fuel bid0 w;
  Returned (mkGameState rounds0 balance0 (profit s) 0 (ready s) (turbo s)
              (auto s) (bid s) (sound s) true, w).

(** [onSpinReady], called by the desk when the items of the round shown
    have finished: the next round is shown if there is one; if not, a new
    wager starts in auto-spin or turbo mode, and otherwise the screen is
    unlocked. Reading [round.info] of a round that is not there throws. *)
Definition onSpinReady (fuel : nat) (s : GameState) (w : World)
  : result (GameState * World) :=
  r ← required (rounds s !! round s);
  let balance0 := info_of_balance r in
  let profit0 := info_of_profit r in
  if bool_decide (is_Some (rounds s !! S (round s))) then
    Returned (mkGameState (rounds s) balance0 profit0 (S (round s)) (ready s) (turbo s)
                (auto s) (bid s) (sound s) (locked s), w)
  else if 0 <? auto s then
    doSpin fuel (bid s)
      (mkGameState (rounds s) (balance s) (profit s) (round s) (ready s) (turbo s)
         (auto s - 1) (bid s) (sound s) (locked s)) w
  else if auto s <? 0 then doSpin fuel (bid s) s w
  else if turbo s then doSpin fuel (bid s) s w
  else if locked s then
    Returned (mkGameState (rounds s) balance0 profit0 (round s) (ready s) (turbo s)
                (auto s) (bid s) (sound s) false, w)
  else Returned (s, w).

(** [onClickSpin]: a wager of the selected bid, unless the screen is
    locked. *)
Definition onClickSpin (fuel : nat) (s : GameState) (w : World)
  : result (GameState * World) :=
  if negb (locked s) then doSpin fuel (bid s) s w else Returned (s, w).

(** [onSpinReady] called [n] times in a row. *)
Fixpoint onSpinReady_times (n fuel : nat) (s : GameState) (w : World)
  : result (GameState * World) :=
  match n with
  | O => Returned (s, w)
  | S n' =>
      '(s, w) ← onSpinReady fuel s w;
      onSpinReady_times n' fuel s w
  end.

End Handlers.

End GameScreen.

(** * Properties *)

(** ** Grouping and matching *)

Lemma range_elem (lo : Z) (n : nat) (z : Z) :
  lo <= z < lo + Z.of_nat n -> z ∈ range lo n.
Proof.
  intros Hz. unfold range. apply list_elem_of_fmap.
  exists (Z.to_nat (z - lo)). split; [lia|].
  apply list_elem_of_In, in_seq. lia.
Qed.

Lemma tally_nonneg (k : Z) (items : list Z) : 0 <= tally k items.
Proof. unfold tally. lia. Qed.

Lemma tally_le_length (k : Z) (items : list Z) :
  tally k items <= Z.of_nat (length items).
Proof.
  unfold tally. induction items as [|x items IH]; simpl; [lia|].
  destruct (Z.eq_dec x k); simpl; lia.
Qed.

Lemma tally_cons (k x : Z) (items : list Z) :
  tally k (x :: items) = (if decide (x = k) then 1 else 0) + tally k items.
Proof.
  unfold tally. simpl. destruct (Z.eq_dec x k), (decide (x = k)); try congruence; lia.
Qed.

Lemma tally_pos_elem (k : Z) (items : list Z) : 0 < tally k items -> k ∈ items.
Proof.
  unfold tally. intros H. apply list_elem_of_In.
  apply (count_occ_In Z.eq_dec). lia.
Qed.

(** The step of [groupItems] keeps counts positive and adds one to the
    count of the item. *)
Lemma groupItems_foldl (items : list Z) (groups : gmap Z Z) (k : Z) :
  map_Forall (fun _ c => 0 < c) groups ->
  foldl (fun groups item =>
           <[ item := match groups !! item with
                      | Some c => js_or (c + 1) 1
                      | None => 1
                      end ]> groups) groups items !! k
  = if decide (tally k items = 0) then groups !! k
    else Some (default 0 (groups !! k) + tally k items).
Proof.
  revert groups. induction items as [|x items IH]; intros groups Hpos.
  - simpl. reflexivity.
  - cbn [foldl]. rewrite IH.
    + rewrite tally_cons. pose proof (tally_nonneg k items) as Hk.
      destruct (decide (x = k)) as [->|Hne].
      * rewrite lookup_insert_eq.
        destruct (groups !! k) as [c|] eqn:Hc.
        -- apply Hpos in Hc. unfold js_or, truthy.
           destruct (Z.eqb_spec (c + 1) 0); [lia|]. simpl.
           repeat case_decide; try lia; f_equal; lia.
        -- simpl. repeat case_decide; try lia; f_equal; lia.
      * rewrite lookup_insert_ne by done.
        repeat case_decide; try lia; reflexivity.
    + intros i c. destruct (decide (x = i)) as [<-|Hi].
      * rewrite lookup_insert_eq. intros Heq. apply (inj Some) in Heq. rewrite <- Heq.
        destruct (groups !! x) as [c'|] eqn:Hc; [|lia].
        apply Hpos in Hc. unfold js_or, truthy.
        destruct (Z.eqb_spec (c' + 1) 0); simpl; lia.
      * rewrite lookup_insert_ne by done. apply Hpos.
Qed.

(** [groupItems] holds, for each kind present, its tally. *)
Lemma groupItems_lookup (items : list Z) (k : Z) :
  groupItems items !! k
  = if decide (tally k items = 0) then None else Some (tally k items).
Proof.
  unfold groupItems. rewrite groupItems_foldl.
  - rewrite lookup_empty. reflexivity.
  - apply map_Forall_empty.
Qed.

Lemma rewards_of_kind (k : Z) : kind k -> is_Some (rewards_of k).
Proof.
  intros Hk. assert (Hin : k ∈ range 0 10) by (apply range_elem; unfold kind in Hk; lia).
  revert Hin. generalize k.
  apply Forall_forall. vm_compute. repeat constructor; eexists; reflexivity.
Qed.

(** On a board of symbol kinds [findCombinations] does not throw, and
    what it holds for a kind is decided by the kind's tally. *)
Lemma findCombinations_groupItems (show : list Z) :
  Forall kind show ->
  exists math, findCombinations (groupItems show) = Some math /\
    forall k, math !! k
              = if decide (tally k show = 0) then None else credited k (tally k show).
Proof.
  intros Hshow. unfold findCombinations.
  destruct (decide _) as [Hall|Hnot].
  - eexists. split; [reflexivity|]. intros k.
    rewrite map_lookup_imap, groupItems_lookup.
    case_decide; reflexivity.
  - exfalso. apply Hnot. intros k c Hk.
    rewrite groupItems_lookup in Hk. case_decide; [done|].
    apply rewards_of_kind. rewrite Forall_forall in Hshow. apply Hshow.
    apply tally_pos_elem. pose proof (tally_nonneg k show). lia.
Qed.

Lemma payout_table (k amount : Z) :
  kind k -> 1 <= amount <= 30 -> payout_check k amount = true.
Proof.
  intros Hk Ha.
  assert (Hkin : k ∈ range 0 10) by (apply range_elem; unfold kind in Hk; lia).
  assert (Hain : amount ∈ range 1 30) by (apply range_elem; lia).
  assert (Hall : forallb (fun k => forallb (payout_check k) (range 1 30)) (range 0 10) = true)
    by (vm_compute; reflexivity).
  rewrite forallb_forall in Hall.
  specialize (Hall k (proj1 (list_elem_of_In _ _) Hkin)).
  rewrite forallb_forall in Hall.
  exact (Hall amount (proj1 (list_elem_of_In _ _) Hain)).
Qed.

Lemma filled_board_tally (show : list Z) (k : Z) :
  filled_board show -> tally k show <> 0 -> kind k /\ 1 <= tally k show <= 30.
Proof.
  intros [Hlen Hall] Hk.
  pose proof (tally_nonneg k show). pose proof (tally_le_length k show).
  split; [|lia].
  rewrite Forall_forall in Hall. apply Hall, tally_pos_elem. lia.
Qed.

(** C5. On every fully filled 30-cell board [findCombinations] returns a
    map that credits kind 0 only when at least 4 cells hold it and a kind
    of 1 to 9 only when at least 8 cells hold it; a kind of 1 to 9 held by
    more than 12 cells is credited with the multiplier of 12 cells; a
    board with 15 cells of kind 1 credits kind 1 with 100. *)
Theorem findCombinations_thresholds (show : list Z) :
  filled_board show ->
  exists math, findCombinations (groupItems show) = Some math /\
    (forall m, math !! 0 = Some m -> 4 <= tally 0 show) /\
    (forall k m, 1 <= k <= 9 -> math !! k = Some m -> 8 <= tally k show) /\
    (forall k, 1 <= k <= 9 -> 12 < tally k show ->
       is_Some (math !! k) /\
       math !! k = (itemsRewards !! Z.to_nat k) ≫= (fun add => add !! 12)) /\
    (tally 1 show = 15 -> math !! 1 = Some 100).
Proof.
  intros Hboard.
  destruct (findCombinations_groupItems show (proj2 Hboard)) as (math & Hmath & Hlook).
  exists math. split; [exact Hmath|].
  assert (Hcheck : forall k, tally k show <> 0 -> payout_check k (tally k show) = true).
  { intros k Hk. destruct (filled_board_tally show k Hboard Hk).
    apply payout_table; assumption. }
  split; [|split; [|split]].
  - intros m Hm. rewrite Hlook in Hm. case_decide as H0; [done|].
    specialize (Hcheck 0 H0). unfold payout_check in Hcheck. rewrite Hm in Hcheck.
    simpl in Hcheck. lia.
  - intros k m Hk Hm. rewrite Hlook in Hm. case_decide as H0; [done|].
    specialize (Hcheck k H0). unfold payout_check in Hcheck. rewrite Hm in Hcheck.
    destruct (Z.eqb_spec k 0); [lia|]. lia.
  - intros k Hk H12. rewrite Hlook. case_decide as H0; [lia|].
    specialize (Hcheck k H0). unfold payout_check in Hcheck.
    destruct (Z.eqb_spec k 0); [lia|].
    destruct (Z.ltb_spec 12 (tally k show)); [|lia].
    apply andb_prop in Hcheck as [Hsome Hcheck]. simpl in Hcheck.
    apply bool_decide_eq_true in Hcheck. split.
    + destruct (credited k (tally k show)); [eauto|]. simpl in Hsome. lia.
    + rewrite Hcheck.
      unfold rewards_of. destruct (Z.leb_spec 0 k); [reflexivity|lia].
  - intros H15. rewrite Hlook, H15. reflexivity.
Qed.

Lemma findCombinations_thresholds_witness :
  exists math, findCombinations (groupItems fifteen_of_kind1) = Some math /\
    (forall m, math !! 0 = Some m -> 4 <= tally 0 fifteen_of_kind1) /\
    (forall k m, 1 <= k <= 9 -> math !! k = Some m -> 8 <= tally k fifteen_of_kind1) /\
    (forall k, 1 <= k <= 9 -> 12 < tally k fifteen_of_kind1 ->
       is_Some (math !! k) /\
       math !! k = (itemsRewards !! Z.to_nat k) ≫= (fun add => add !! 12)) /\
    (tally 1 fifteen_of_kind1 = 15 -> math !! 1 = Some 100).
Proof.
  apply (findCombinations_thresholds fifteen_of_kind1).
  split; [reflexivity|]. unfold kind. vm_compute. repeat constructor; discriminate.
Defined.

(** C1. A kind 0 held by more than 6 cells of a fully filled board is not
    credited as 6 cells: the cap [item ? 12 : 6] is taken on the property
    name, the string "0", which is truthy, so the cap is 12 and the
    lookup of 7 or more cells in the rewards of kind 0 finds nothing. On
    the board [seven_of_kind0] (7 cells of kind 0) the map has no entry
    for kind 0, where 200 was to be credited. *)
Theorem findCombinations_kind0_above_cap :
  (forall show, filled_board show -> 6 < tally 0 show ->
     exists math, findCombinations (groupItems show) = Some math /\ math !! 0 = None) /\
  filled_board seven_of_kind0 /\ tally 0 seven_of_kind0 = 7 /\
  findCombinations (groupItems seven_of_kind0) = Some ∅ /\
  truthy_string (property_name 0) = true /\
  combination {[ 4 := 6; 5 := 10; 6 := 200 ]} 0 7 = None.
Proof.
  split; [|repeat split; try reflexivity].
  - intros show Hboard H6.
    destruct (findCombinations_groupItems show (proj2 Hboard)) as (math & Hmath & Hlook).
    exists math. split; [exact Hmath|].
    rewrite Hlook. case_decide as H0; [reflexivity|].
    destruct (filled_board_tally show 0 Hboard H0) as [Hk Ht].
    pose proof (payout_table 0 (tally 0 show) Hk Ht) as Hcheck.
    unfold payout_check in Hcheck.
    destruct (credited 0 (tally 0 show)); [|reflexivity].
    simpl in Hcheck. lia.
  - unfold kind. vm_compute. repeat constructor; discriminate.
Qed.

(** ** Reward *)

Lemma calculateReward_multipliers (bid : Z) (math : gmap Z Z) :
  calculateReward bid math = bid * multipliers math.
Proof.
  unfold calculateReward, multipliers. rewrite map_fold_foldr.
  rewrite Z.mul_comm. f_equal.
  induction (map_to_list math) as [|[k v] l IH]; simpl; [reflexivity|].
  rewrite IH. apply Z.add_comm.
Qed.

Lemma multipliers_insert (k v : Z) (math : gmap Z Z) :
  math !! k = None -> multipliers (<[ k := v ]> math) = v + multipliers math.
Proof.
  intros Hk. unfold multipliers.
  assert (Hperm : forall l1 l2 : list (Z * Z), l1 ≡ₚ l2 ->
            foldr Z.add 0 (snd <$> l1) = foldr Z.add 0 (snd <$> l2)).
  { induction 1 as [|[] ? ? ? IH|[] [] ?|? ? ? ? IH1 ? IH2];
      cbn [fmap list_fmap foldr snd] in *; [reflexivity|congruence| |congruence].
    fold (@fmap list _ _ _ (@snd Z Z) l). lia. }
  rewrite (Hperm _ _ (map_to_list_insert math k v Hk)). reflexivity.
Qed.

(** C7. [calculateReward] is the bid times the sum of the multipliers of
    the matched groups: nothing for the empty map, [bid * v] more for each
    further group of multiplier [v]; [calculateReward(10, {0: 6})] is 60. *)
Theorem calculateReward_sum :
  (forall bid math, calculateReward bid math = bid * multipliers math) /\
  (forall bid, calculateReward bid ∅ = 0) /\
  (forall bid k v math, math !! k = None ->
     calculateReward bid (<[ k := v ]> math) = bid * v + calculateReward bid math) /\
  calculateReward 10 {[ 0 := 6 ]} = 60.
Proof.
  split; [|split; [|split]].
  - apply calculateReward_multipliers.
  - intros bid. reflexivity.
  - intros bid k v math Hk. rewrite !calculateReward_multipliers.
    rewrite multipliers_insert by exact Hk. lia.
  - reflexivity.
Qed.

(** ** Gravity *)

Lemma search_up_found (last : list (option Z)) (lo n j : nat) (v : Z) :
  search_up last lo n = Some (j, v) ->
  (lo <= j < lo + n)%nat /\ last !! j = Some (Some v).
Proof.
  induction n as [|n IH]; simpl; [discriminate|].
  destruct (last !! (lo + n)%nat) as [[v'|]|] eqn:Hl.
  - intros [= <- <-]. split; [lia|exact Hl].
  - intros H. apply IH in H. split; [lia|tauto].
  - intros H. apply IH in H. split; [lia|tauto].
Qed.

Lemma settle_within_columns (x i : nat) (st : gmap nat nat * list (option Z)) :
  (x * 5 <= i < x * 5 + 5)%nat -> within_columns st.1 ->
  within_columns (settle (x * 5) i st).1.
Proof.
  intros Hi Hst. destruct st as [move last]. unfold settle.
  destruct (is_null _); [|exact Hst].
  destruct (search_up _ _ _) as [[j v]|] eqn:Hs; [|exact Hst].
  apply search_up_found in Hs as [Hj _]. simpl in *.
  intros from to. destruct (decide (j = from)) as [<-|Hne].
  - rewrite lookup_insert_eq. intros [= <-].
    split; [|lia].
    assert (Hq : forall r, (r < 5)%nat -> ((x * 5 + r) / 5 = x)%nat).
    { intros r Hr. rewrite Nat.add_comm, Nat.div_add by lia.
      rewrite Nat.div_small by lia. reflexivity. }
    replace i with (x * 5 + (i - x * 5))%nat by lia. rewrite Hq by lia.
    replace j with (x * 5 + (j - x * 5))%nat by lia. apply Hq. lia.
  - rewrite lookup_insert_ne by done. apply Hst.
Qed.

Lemma settle_column_within_columns (x : nat) (st : gmap nat nat * list (option Z)) :
  within_columns st.1 -> within_columns (settle_column st x).1.
Proof.
  intros Hst. unfold settle_column. simpl.
  repeat (apply settle_within_columns; [lia|]). exact Hst.
Qed.

(** C6. Every entry [from -> to] of the move map of [moveItems] stays in
    its column ([from div 5 = to div 5]) and is a relocation
    ([from <> to]), whatever the board and the blown positions. *)
Theorem moveItems_within_columns (show : list Z) (blow : list nat) (from to : nat) :
  (moveItems show blow).1 !! from = Some to ->
  (from / 5 = to / 5)%nat /\ from <> to.
Proof.
  revert from to. change (within_columns (moveItems show blow).1).
  unfold moveItems. cbn [seq foldl].
  repeat apply settle_column_within_columns.
  intros from to. cbn [fst]. rewrite lookup_empty. discriminate.
Qed.

Lemma moveItems_within_columns_witness :
  (moveItems seven_of_kind0 [4%nat]).1 !! 3%nat = Some 4%nat /\
  ((3 / 5 = 4 / 5)%nat /\ 3%nat <> 4%nat).
Proof.
  split; [reflexivity|].
  apply (moveItems_within_columns seven_of_kind0 [4%nat] 3 4). reflexivity.
Defined.

(** *** Gravity compacts each column *)

Lemma settle_board (lo i : nat) (st : gmap nat nat * list (option Z)) :
  (settle lo i st).2 = gravity lo i st.2.
Proof.
  destruct st as [move last]. unfold gravity, settle. cbn [snd].
  destruct (is_null _); [|reflexivity].
  destruct (search_up _ _ _) as [[j v]|]; reflexivity.
Qed.

Lemma settle_column_board (x : nat) (st : gmap nat nat * list (option Z)) :
  (settle_column st x).2
  = gravity (x * 5) (x * 5 + 1) (gravity (x * 5) (x * 5 + 2)
      (gravity (x * 5) (x * 5 + 3) (gravity (x * 5) (x * 5 + 4) st.2))).
Proof. unfold settle_column. cbn [seq foldl Nat.sub]. rewrite !settle_board. reflexivity. Qed.

Lemma search_up_app (pre l : list (option Z)) (n : nat) :
  search_up (pre ++ l) (length pre) n
  = (fun '(j, v) => ((length pre + j)%nat, v)) <$> search_up l 0 n.
Proof.
  induction n as [|n IH]; [reflexivity|].
  cbn [search_up]. rewrite lookup_app_r by lia.
  replace (length pre + n - length pre)%nat with n by lia. cbn [Nat.add].
  destruct (l !! n) as [[v|]|]; [reflexivity|exact IH|exact IH].
Qed.

Lemma array_set_app {A} (pre l : list (option A)) (k : nat) (v : option A) :
  array_set (length pre + k) v (pre ++ l) = pre ++ array_set k v l.
Proof.
  unfold array_set. rewrite length_app.
  destruct (Nat.ltb_spec k (length l)) as [Hk|Hk].
  - destruct (Nat.ltb_spec (length pre + k) (length pre + length l)); [|lia].
    apply insert_app_r.
  - destruct (Nat.ltb_spec (length pre + k) (length pre + length l)); [lia|].
    replace (length pre + k - (length pre + length l))%nat with (k - length l)%nat by lia.
    rewrite <- app_assoc. reflexivity.
Qed.

(** Gravity in a column leaves the cells before the column alone and does
    in the column what it does in a board that starts there. *)
Lemma gravity_app (pre l : list (option Z)) (k : nat) :
  gravity (length pre) (length pre + k) (pre ++ l) = pre ++ gravity 0 k l.
Proof.
  unfold gravity, settle. rewrite lookup_app_r by lia.
  replace (length pre + k - length pre)%nat with k by lia.
  destruct (is_null (l !! k)); [|reflexivity].
  rewrite search_up_app, Nat.sub_0_r.
  destruct (search_up l 0 k) as [[j v]|]; [|reflexivity].
  cbn [fmap option_fmap option_map snd]. rewrite !array_set_app. reflexivity.
Qed.

(** The four steps of a column, on a board that starts with the column. *)
Lemma gravity_first_column (a b c d e : option Z) (rest : list (option Z)) :
  gravity 0 1 (gravity 0 2 (gravity 0 3 (gravity 0 4 ([a; b; c; d; e] ++ rest))))
  = compact [a; b; c; d; e] ++ rest.
Proof. destruct a, b, c, d, e; reflexivity. Qed.

Lemma compact_length (col : list (option Z)) : length (compact col) = length col.
Proof.
  unfold compact. rewrite length_app, length_replicate, length_fmap.
  assert (length (survivors col) <= length col)%nat; [|lia].
  unfold survivors. induction col as [|[v|] col IH]; cbn [omap list_omap length]; lia.
Qed.

Lemma survivors_compact (col : list (option Z)) : survivors (compact col) = survivors col.
Proof.
  unfold compact. generalize (length col - length (survivors col))%nat as k.
  generalize (survivors col) as s. intros s k. unfold survivors.
  induction k as [|k IH]; simpl; [|exact IH].
  induction s as [|v s IH]; simpl; [reflexivity|]. f_equal. exact IH.
Qed.

Lemma settle_column_app (x : nat) (move : gmap nat nat)
    (pre col rest : list (option Z)) :
  length pre = (x * 5)%nat -> length col = 5%nat ->
  (settle_column (move, pre ++ col ++ rest) x).2 = pre ++ compact col ++ rest.
Proof.
  intros Hpre Hcol. rewrite settle_column_board. cbn [snd]. rewrite <- Hpre.
  rewrite !gravity_app. f_equal.
  do 5 (destruct col as [|? col]; [discriminate|]).
  destruct col; [|discriminate]. apply gravity_first_column.
Qed.

Lemma gravity_columns (cols : list (list (option Z))) :
  Forall (fun c => length c = 5%nat) cols ->
  forall (x : nat) (move : gmap nat nat) (pre : list (option Z)),
    length pre = (x * 5)%nat ->
    (foldl settle_column (move, pre ++ concat cols) (seq x (length cols))).2
    = pre ++ concat (compact <$> cols).
Proof.
  induction 1 as [|col cols Hcol Hcols IH]; intros x move pre Hpre.
  - reflexivity.
  - cbn [length seq foldl concat fmap list_fmap].
    pose proof (settle_column_app x move pre col (concat cols) Hpre Hcol) as Hstep.
    destruct (settle_column _ x) as [move' last']. cbn [snd] in Hstep. subst last'.
    rewrite (app_assoc pre), IH.
    + rewrite <- app_assoc. reflexivity.
    + rewrite length_app, compact_length. lia.
Qed.

Lemma column_concat {A} (cols : list (list A)) (x : nat) (col : list A) :
  Forall (fun c => length c = 5%nat) cols ->
  cols !! x = Some col -> column x (concat cols) = col.
Proof.
  intros Hcols. revert x. unfold column.
  induction Hcols as [|c cols Hc Hcols IH]; intros x Hx; [done|].
  destruct x as [|x]; cbn [concat].
  - injection Hx as <-. change (take 5 (c ++ concat cols) = c).
    apply take_app_length'. symmetry. exact Hc.
  - replace (S x * 5)%nat with (length c + x * 5)%nat by lia.
    rewrite drop_app_add. apply IH. exact Hx.
Qed.

(** A board of thirty cells is its six columns, one after the other. *)
Lemma board_columns {A} (l : list A) :
  length l = 30%nat ->
  l = concat ((fun x => column x l) <$> seq 0 6) /\
  Forall (fun c => length c = 5%nat) ((fun x => column x l) <$> seq 0 6).
Proof.
  intros Hl. do 30 (destruct l as [|? l]; [discriminate|]).
  destruct l; [|discriminate]. split; [reflexivity|].
  repeat constructor.
Qed.

Lemma compact_columns_length (cols : list (list (option Z))) :
  length (concat (compact <$> cols)) = length (concat cols).
Proof.
  induction cols as [|c cols IH]; [reflexivity|].
  cbn [fmap list_fmap concat]. rewrite !length_app, compact_length.
  f_equal. exact IH.
Qed.

(** The cleared board holds, in column [x], the items that are not blown. *)
Lemma clear_unblown (show : list Z) (blow : list nat) (x : nat) :
  length show = 30%nat -> (x < 6)%nat ->
  survivors (column x (clear show blow)) = unblown x show blow.
Proof.
  intros Hlen Hx. do 30 (destruct show as [|? show]; [discriminate|]).
  destruct show; [|discriminate].
  do 6 (destruct x as [|x]; [reflexivity|]). lia.
Qed.

(** In a compacted column an empty cell has only empty cells above it. *)
Lemma compact_null_above (s : list Z) (k r1 r2 : nat) :
  (r1 <= r2 < k + length s)%nat ->
  is_null ((replicate k None ++ (Some <$> s)) !! r2) = true ->
  is_null ((replicate k None ++ (Some <$> s)) !! r1) = true.
Proof.
  intros Hr Hnull.
  assert (Hlt : (r2 < k)%nat).
  { destruct (Nat.lt_ge_cases r2 k) as [|Hge]; [assumption|exfalso].
    rewrite lookup_app_r, length_replicate in Hnull by (rewrite length_replicate; lia).
    rewrite list_lookup_fmap in Hnull.
    destruct (lookup_lt_is_Some_2 s (r2 - k)) as [v Hv]; [lia|].
    rewrite Hv in Hnull. discriminate. }
  rewrite lookup_app_l by (rewrite length_replicate; lia).
  rewrite lookup_replicate_2 by lia. reflexivity.
Qed.

(** C9. On a 30-cell board [moveItems] keeps the surviving symbols: in
    each column the items of the resulting board are the non-blown items
    of the input column, in the same order (so the same multiset); and the
    column is compacted downward, its empty cells on top of its items. *)
Theorem moveItems_compacts (show : list Z) (blow : list nat) (x : nat) :
  length show = 30%nat -> (x < 6)%nat ->
  length (moveItems show blow).2 = 30%nat /\
  survivors (column x (moveItems show blow).2) = unblown x show blow /\
  survivors (column x (moveItems show blow).2) ≡ₚ unblown x show blow /\
  column x (moveItems show blow).2
  = replicate (5 - length (unblown x show blow)) None ++ (Some <$> unblown x show blow) /\
  (forall r1 r2, (r1 <= r2 < 5)%nat ->
     is_null ((moveItems show blow).2 !! (x * 5 + r2)%nat) = true ->
     is_null ((moveItems show blow).2 !! (x * 5 + r1)%nat) = true).
Proof.
  intros Hlen Hx.
  assert (Hclear : length (clear show blow) = 30%nat)
    by (unfold clear; rewrite length_imap; exact Hlen).
  destruct (board_columns (clear show blow) Hclear) as [Hcat Hall].
  set (cols := (fun x => column x (clear show blow)) <$> seq 0 6) in *.
  assert (Hlast : (moveItems show blow).2 = concat (compact <$> cols)).
  { unfold moveItems. rewrite Hcat at 1.
    exact (gravity_columns cols Hall 0 ∅ [] eq_refl). }
  assert (Hcol : column x (moveItems show blow).2 = compact (column x (clear show blow))).
  { rewrite Hlast. apply column_concat.
    - apply Forall_fmap. eapply Forall_impl; [exact Hall|].
      intros c Hc. cbn. rewrite compact_length. exact Hc.
    - rewrite list_lookup_fmap. subst cols.
      do 6 (destruct x as [|x]; [reflexivity|]). lia. }
  assert (Hshape : column x (moveItems show blow).2
            = replicate (5 - length (unblown x show blow)) None
              ++ (Some <$> unblown x show blow)).
  { rewrite Hcol. unfold compact. rewrite clear_unblown by assumption.
    assert (Hfive : length (column x (clear show blow)) = 5%nat);
      [|rewrite Hfive; reflexivity].
    rewrite Forall_forall in Hall. apply Hall.
    subst cols. apply list_elem_of_fmap. exists x. split; [reflexivity|].
    apply list_elem_of_In, in_seq. lia. }
  assert (Hsurv : survivors (column x (moveItems show blow).2) = unblown x show blow).
  { rewrite Hcol, survivors_compact. apply clear_unblown; assumption. }
  split; [|split; [|split; [|split]]].
  - rewrite Hlast, compact_columns_length, <- Hcat. exact Hclear.
  - exact Hsurv.
  - rewrite Hsurv. reflexivity.
  - exact Hshape.
  - intros r1 r2 Hr.
    assert (Hlook : forall r, (r < 5)%nat ->
              (moveItems show blow).2 !! (x * 5 + r)%nat
              = column x (moveItems show blow).2 !! r).
    { intros r Hr'. unfold column. rewrite lookup_take_lt by exact Hr'.
      rewrite lookup_drop. reflexivity. }
    rewrite !Hlook by lia. rewrite Hshape.
    apply compact_null_above.
    assert (length (unblown x show blow) <= 5)%nat; [|lia].
    rewrite <- Hsurv, Hcol, survivors_compact.
    transitivity (length (column x (clear show blow))).
    + pose proof (compact_length (column x (clear show blow))) as Hc.
      unfold compact in Hc. rewrite length_app, length_replicate, length_fmap in Hc. lia.
    + unfold column. rewrite length_take. lia.
Qed.

Lemma moveItems_compacts_witness :
  length (moveItems seven_of_kind0 [2; 4]%nat).2 = 30%nat /\
  survivors (column 0 (moveItems seven_of_kind0 [2; 4]%nat).2)
  = unblown 0 seven_of_kind0 [2; 4]%nat /\
  survivors (column 0 (moveItems seven_of_kind0 [2; 4]%nat).2)
  ≡ₚ unblown 0 seven_of_kind0 [2; 4]%nat /\
  column 0 (moveItems seven_of_kind0 [2; 4]%nat).2
  = replicate (5 - length (unblown 0 seven_of_kind0 [2; 4]%nat)) None
    ++ (Some <$> unblown 0 seven_of_kind0 [2; 4]%nat) /\
  (forall r1 r2, (r1 <= r2 < 5)%nat ->
     is_null ((moveItems seven_of_kind0 [2; 4]%nat).2 !! (0 * 5 + r2)%nat) = true ->
     is_null ((moveItems seven_of_kind0 [2; 4]%nat).2 !! (0 * 5 + r1)%nat) = true).
Proof.
  apply (moveItems_compacts seven_of_kind0 [2; 4]%nat 0); [reflexivity|lia].
Defined.

(** ** Filling *)

Lemma random_range (r : Random01) : (0 <= rval r)%Q /\ (rval r < 1)%Q.
Proof.
  destruct r as [[n d] H]. cbn [rval]. cbn [Qnum Qden] in H.
  apply andb_prop in H as [H0 H1].
  apply Z.leb_le in H0. apply Z.ltb_lt in H1.
  unfold Qle, Qlt. cbn [Qnum Qden]. lia.
Qed.

(** [Math.round(Math.random() * n)] is one of [0, ..., n]. *)
Lemma Math_round_random (r : Random01) (n : Z) :
  0 <= n -> 0 <= Math_round (rval r * inject_Z n) <= n.
Proof.
  intros Hn. destruct (random_range r) as [H0 H1]. unfold Math_round.
  assert (Hlo : (0 <= rval r * inject_Z n)%Q).
  { apply Qmult_le_0_compat; [exact H0|]. change 0%Q with (inject_Z 0).
    rewrite <- Zle_Qle. exact Hn. }
  assert (Hhi : (rval r * inject_Z n <= inject_Z n)%Q).
  { rewrite <- (Qmult_1_l (inject_Z n)) at 2.
    apply Qmult_le_compat_r; [apply Qlt_le_weak; exact H1|].
    change 0%Q with (inject_Z 0). rewrite <- Zle_Qle. exact Hn. }
  split.
  - change 0 with (Qfloor 0). apply Qfloor_resp_le.
    apply Qle_trans with (rval r * inject_Z n)%Q; [exact Hlo|].
    rewrite <- (Qplus_0_r (rval r * inject_Z n)) at 1.
    apply Qplus_le_r. discriminate.
  - apply Z.lt_succ_r. rewrite Zlt_Qlt.
    apply Qle_lt_trans with (rval r * inject_Z n + (1 # 2))%Q; [apply Qfloor_le|].
    apply Qle_lt_trans with (inject_Z n + (1 # 2))%Q.
    + apply Qplus_le_l. exact Hhi.
    + unfold Z.succ. rewrite inject_Z_plus. apply Qplus_lt_r. reflexivity.
Qed.

(** The threshold search finds a kind: the last threshold, 1, is above
    every draw, so [-1] is never returned. *)
Lemma findIndex_kind (r : Random01) : kind (findIndex (rval r)).
Proof.
  destruct (random_range r) as [_ H1].
  assert (Hlast : Qle_bool (rval r) (1 # 1) = true)
    by (apply Qle_bool_iff, Qlt_le_weak; exact H1).
  unfold findIndex, itemsRanges, kind. cbn [findIndex_from].
  rewrite Hlast. clear Hlast.
  repeat (destruct (Qle_bool (rval r) _); [lia|]). lia.
Qed.

Lemma array_set_board (i : nat) (k : Z) (items : list (option Z)) :
  (i < 30)%nat -> kind k -> board items -> board (array_set i (Some k) items).
Proof.
  intros Hi Hk [Hlen Hall]. unfold array_set.
  destruct (Nat.ltb_spec i (length items)); [|lia].
  split; [rewrite length_insert; exact Hlen|].
  apply Forall_insert; assumption.
Qed.

Section Filling.

Variable random : nat -> Random01.

Lemma showcase_writes_board (type : Z) (amount d : nat) (items : list (option Z)) :
  kind type -> board items -> board (showcase_writes random type amount d items).
Proof.
  intros Hk. revert d items. induction amount as [|amount IH]; intros d items Hb.
  - exact Hb.
  - cbn [showcase_writes]. apply IH. apply array_set_board; [|exact Hk|exact Hb].
    pose proof (Math_round_random (random d) 29). change (inject_Z 29) with 29%Q in *. lia.
Qed.

Lemma fill_cells_filled (d : nat) (items : list (option Z)) :
  Forall (fun c => from_option kind True c) items ->
  length (fill_cells random d items) = length items /\
  Forall kind (fill_cells random d items).
Proof.
  intros Hall. revert d. induction Hall as [|c items Hc Hall IH]; intros d.
  - split; [reflexivity|constructor].
  - destruct (IH (S d)) as [Hlen Hkinds]. cbn [fill_cells length]. split.
    + rewrite Hlen. reflexivity.
    + constructor; [|exact Hkinds].
      destruct c as [k|]; [exact Hc|apply findIndex_kind].
Qed.

(** C10. On every board [fillItems] returns, and the array it returns is
    a fully filled board: thirty cells, each a kind of 0 to 9. The
    threshold search returns a kind for every draw (never [-1]), and a
    showcase write goes to a position of 0 to 29. *)
Theorem fillItems_kinds (w : World) (items : list (option Z)) :
  board items ->
  (exists show w', fillItems random w items = Returned (show, w') /\ filled_board show) /\
  (forall r : Random01, kind (findIndex (rval r))) /\
  (forall r : Random01, 0 <= Math_round (rval r * 29) <= 29).
Proof.
  intros Hb. split; [|split].
  - unfold fillItems. destruct (3 <? fails (service w)).
    + pose proof (Math_round_random (random (draws (set_fails 0 w)))
                    (Z.of_nat (length showcaseCombinations) - 1)) as Hpick.
      set (pick := Math_round _) in *.
      change (Z.of_nat (length showcaseCombinations) - 1) with 3 in Hpick.
      assert (Hin : pick ∈ range 0 4) by (apply range_elem; lia).
      assert (Hcomb : exists type amount,
                showcaseCombinations !! Z.to_nat pick = Some (type, amount) /\ kind type).
      { revert Hin. generalize pick. apply Forall_forall.
        unfold kind. repeat constructor; do 2 eexists; (split; [reflexivity|lia]). }
      destruct Hcomb as (type & amount & Hlook & Hk).
      rewrite Hlook. cbn [required mbind result_bind].
      pose proof (showcase_writes_board type amount
                    (S (draws (set_fails 0 w))) items Hk Hb) as [Hlen Hall].
      do 2 eexists. split; [reflexivity|].
      destruct (fill_cells_filled (draws (add_draws (S amount) (set_fails 0 w))) _ Hall)
        as [Hlen' Hkinds].
      split; [rewrite Hlen'; exact Hlen|exact Hkinds].
    + do 2 eexists. split; [reflexivity|]. destruct Hb as [Hlen Hall].
      destruct (fill_cells_filled (draws w) items Hall) as [Hlen' Hkinds].
      split; [rewrite Hlen'; exact Hlen|exact Hkinds].
  - apply findIndex_kind.
  - intros r. apply (Math_round_random r 29). lia.
Qed.

End Filling.

Lemma fillItems_kinds_witness :
  board (replicate 30 None) /\
  ((exists show w', fillItems (always (draw_of_kind 6))
                      (mkWorld (mkGameService 100 0 4) 0) (replicate 30 None)
                    = Returned (show, w') /\ filled_board show) /\
   (forall r : Random01, kind (findIndex (rval r))) /\
   (forall r : Random01, 0 <= Math_round (rval r * 29) <= 29)).
Proof.
  assert (Hb : board (replicate 30 None))
    by (split; [reflexivity|repeat constructor]).
  split; [exact Hb|].
  apply (fillItems_kinds (always (draw_of_kind 6))
           (mkWorld (mkGameService 100 0 4) 0) (replicate 30 None) Hb).
Defined.

(** ** The demo fill *)

Lemma insert_by_perm {A} (cmp : A -> A -> Z) (x : A) (l : list A) :
  insert_by cmp x l ≡ₚ x :: l.
Proof.
  induction l as [|y l IH]; [reflexivity|].
  cbn [insert_by]. destruct (0 <? cmp x y); [|reflexivity].
  rewrite IH. apply Permutation_swap.
Qed.

Lemma insertion_sort_perm (A : Type) (cmp : A -> A -> Z) (l : list A) :
  insertion_sort A cmp l ≡ₚ l.
Proof.
  unfold insertion_sort. induction l as [|x l IH]; [reflexivity|].
  cbn [foldr]. rewrite insert_by_perm, IH. reflexivity.
Qed.

Lemma tally_perm (k : Z) (l1 l2 : list Z) : l1 ≡ₚ l2 -> tally k l1 = tally k l2.
Proof.
  intros Hp. unfold tally. f_equal.
  apply (proj1 (Permutation_count_occ Z.eq_dec l1 l2) Hp).
Qed.

Section Demo.

Variable random : nat -> Random01.
Variable sort : forall A : Type, (A -> A -> Z) -> list A -> list A.
Hypothesis sort_perm : forall A cmp l, sort A cmp l ≡ₚ l.

Lemma fakeItems_perm (w : World) : (fakeItems random sort w).1 ≡ₚ fake_kinds.
Proof.
  unfold fakeItems. cbn [fst]. rewrite sort_perm. reflexivity.
Qed.

(** The demo board has three cells of each kind: nothing matches. *)
Lemma fakeItems_no_match (w : World) :
  findCombinations (groupItems (fakeItems random sort w).1) = Some ∅.
Proof.
  pose proof (fakeItems_perm w) as Hp.
  assert (Hkinds : Forall kind (fakeItems random sort w).1).
  { rewrite Hp. unfold kind. vm_compute. repeat constructor; discriminate. }
  destruct (findCombinations_groupItems _ Hkinds) as (math & Hmath & Hlook).
  rewrite Hmath. f_equal. apply map_eq. intros k.
  rewrite Hlook, lookup_empty, (tally_perm k _ _ Hp).
  case_decide as Hk; [reflexivity|].
  assert (Hin : k ∈ range 0 10).
  { apply range_elem. cut (kind k); [unfold kind; lia|].
    assert (Hf : Forall kind fake_kinds)
      by (unfold kind; vm_compute; repeat constructor; discriminate).
    rewrite Forall_forall in Hf. apply Hf, tally_pos_elem.
    pose proof (tally_nonneg k fake_kinds). lia. }
  revert Hin. generalize k. apply Forall_forall.
  repeat (constructor; [vm_compute; reflexivity|]). constructor.
Qed.

Lemma round_idle (bid : Z) (w : World) (l : Locals) :
  exists r, round random sort true bid w l
            = Returned (r, add_draws 30 (set_index (index (service w) + 1) w),
                        mkLocals (last r) (l_profit l) (l_balance l)) /\
    show r ≡ₚ fake_kinds /\
    math r = ∅ /\ blow r = [] /\
    info r = mkInfo 0 (l_profit l) (l_balance l).
Proof.
  unfold round. cbn [mbind result_bind].
  pose proof (fakeItems_no_match (set_index (index (service w) + 1) w)) as Hm.
  pose proof (fakeItems_perm (set_index (index (service w) + 1) w)) as Hp.
  destruct (fakeItems random sort _) as [shown w'] eqn:Hfake.
  assert (Hw : w' = add_draws 30 (set_index (index (service w) + 1) w)).
  { unfold fakeItems in Hfake. injection Hfake as _ Hw. symmetry. exact Hw. }
  cbn [fst] in Hm, Hp. rewrite Hm. cbn [required mbind result_bind].
  destruct (moveItems shown _) as [moved lasted] eqn:Hmove.
  assert (Hreward : calculateReward bid ∅ = 0) by reflexivity.
  rewrite Hreward, !Z.add_0_r. subst w'.
  eexists (mkRoundInfo _ _ _ _ _ _ _ _). split; [reflexivity|].
  cbn [show math blow info].
  split; [exact Hp|]. repeat split. unfold blowItems.
  induction (zip _ shown) as [|[i item] z IH]; [reflexivity|].
  cbn. exact IH.
Qed.

(** C3. A wager with [bid <= 0] or [bid] above the balance is idle: it
    returns a result of exactly one round, which shows a shuffle of the
    demo board and whose reward is 0, and it leaves the balance of the
    service as it was. *)
Theorem spin_idle (fuel : nat) (bid : Z) (w : World) :
  bid <= 0 \/ balance (service w) < bid ->
  exists r w', spin random sort (S fuel) bid w = Returned ([r], w') /\
    show r ≡ₚ fake_kinds /\
    reward (info r) = 0 /\
    balance (service w') = balance (service w).
Proof.
  intros Hbid. unfold spin.
  assert (Hidle : (bid <=? 0) || (balance (service w) <? bid) = true).
  { apply orb_true_iff. destruct Hbid; [left; lia|right; lia]. }
  rewrite Hidle. cbn [rounds_loop mbind result_bind].
  destruct (round_idle bid w (mkLocals (replicate 30 None) 0 (balance (service w) - bid)))
    as (r & Hround & Hshow & _ & _ & Hinfo).
  rewrite Hround. cbn [mbind result_bind]. rewrite Hinfo.
  cbn [reward Z.ltb Z.compare negb length Nat.eqb].
  exists r. eexists. split; [reflexivity|].
  split; [exact Hshow|]. split; [rewrite Hinfo; reflexivity|reflexivity].
Qed.

End Demo.

Lemma spin_idle_witness :
  (0 <= 0 \/ balance (service (new_GameService 100)) < 0) /\
  exists r w', spin (always (draw_of_kind 6)) insertion_sort 1 0 (new_GameService 100)
               = Returned ([r], w') /\
    show r ≡ₚ fake_kinds /\
    reward (info r) = 0 /\
    balance (service w') = balance (service (new_GameService 100)).
Proof.
  split; [left; lia|].
  apply (spin_idle (always (draw_of_kind 6)) insertion_sort insertion_sort_perm
           0 0 (new_GameService 100)).
  left. lia.
Defined.

(** ** The cascade loop *)

Section Cascade.

Variable random : nat -> Random01.
Variable sort : forall A : Type, (A -> A -> Z) -> list A -> list A.

(** The loop returns at the first round whose reward is not positive, and
    not before. *)
Lemma rounds_loop_first_unrewarded (idle : bool) (bid : Z) (n : nat) :
  forall (w : World) (l : Locals),
    (forall k, (k < n)%nat ->
       exists r w' l', nth_round random sort k idle bid w l = Returned (r, w', l') /\
                       0 < reward (info r)) ->
    (exists r w' l', nth_round random sort n idle bid w l = Returned (r, w', l') /\
                     reward (info r) <= 0) ->
    (forall fuel, (n < fuel)%nat ->
       exists rounds w' l', rounds_loop random sort fuel idle bid w l
                            = Returned (rounds, w', l') /\ length rounds = S n) /\
    (forall fuel, (fuel <= n)%nat ->
       rounds_loop random sort fuel idle bid w l = OutOfFuel).
Proof.
  induction n as [|n IH]; intros w l Hbefore Hat.
  - destruct Hat as (r & w' & l' & Hr & Hle). cbn [nth_round] in Hr. split.
    + intros [|fuel] Hf; [lia|]. cbn [rounds_loop]. rewrite Hr. cbn [mbind result_bind].
      destruct (Z.ltb_spec 0 (reward (info r))); [lia|]. eauto.
    + intros fuel Hf. replace fuel with 0%nat by lia. reflexivity.
  - destruct (Hbefore 0%nat ltac:(lia)) as (r0 & w0 & l0 & Hr0 & Hpos).
    cbn [nth_round] in Hr0.
    destruct (IH w0 l0) as [Hret Hout].
    + intros k Hk. specialize (Hbefore (S k) ltac:(lia)).
      cbn [nth_round] in Hbefore. rewrite Hr0 in Hbefore. exact Hbefore.
    + cbn [nth_round] in Hat. rewrite Hr0 in Hat. exact Hat.
    + split.
      * intros [|fuel] Hf; [lia|]. cbn [rounds_loop]. rewrite Hr0. cbn [mbind result_bind].
        destruct (Z.ltb_spec 0 (reward (info r0))); [|lia].
        destruct (Hret fuel ltac:(lia)) as (rounds & w' & l' & Hloop & Hlen).
        rewrite Hloop. cbn [mbind result_bind]. do 3 eexists. split; [reflexivity|].
        cbn [length]. rewrite Hlen. reflexivity.
      * intros [|fuel] Hf; [reflexivity|]. cbn [rounds_loop]. rewrite Hr0.
        cbn [mbind result_bind].
        destruct (Z.ltb_spec 0 (reward (info r0))); [|lia].
        rewrite (Hout fuel ltac:(lia)). reflexivity.
Qed.

(** C2 (amended). The loop of [spin] has no iteration cap: it runs as long
    as the last round paid. If the round [n] (from 0) is the first whose
    reward is not positive, [spin] returns, with [n + 1] rounds, whenever
    the model lets it run more than [n] rounds, and it is still running
    after [n] rounds. *)
Theorem spin_returns_at_first_unrewarded_round (bid : Z) (w : World) (n : nat) :
  (forall k, (k < n)%nat -> exists z, reward_at random sort k bid w = Some z /\ 0 < z) ->
  (exists z, reward_at random sort n bid w = Some z /\ z <= 0) ->
  (forall fuel, (n < fuel)%nat ->
     exists rounds w', spin random sort fuel bid w = Returned (rounds, w') /\
                       length rounds = S n) /\
  (forall fuel, (fuel <= n)%nat -> spin random sort fuel bid w = OutOfFuel).
Proof.
  intros Hbefore Hat. unfold reward_at, idle_bid in *.
  destruct (rounds_loop_first_unrewarded
              ((bid <=? 0) || (balance (service w) <? bid)) bid n w
              (mkLocals (replicate 30 None) 0 (balance (service w) - bid)))
    as [Hret Hout].
  - intros k Hk. destruct (Hbefore k Hk) as (z & Hz & Hpos).
    destruct (nth_round random sort k _ _ _ _) as [[[r w'] l']| |]; try discriminate.
    injection Hz as <-. eauto.
  - destruct Hat as (z & Hz & Hle). clear Hbefore.
    destruct (nth_round random sort n _ _ _ _) as [[[r w'] l']| |]; try discriminate.
    injection Hz as <-. eauto.
  - split.
    + intros fuel Hf. destruct (Hret fuel Hf) as (rounds & w' & l' & Hloop & Hlen).
      unfold spin. rewrite Hloop. cbn [mbind result_bind]. eauto.
    + intros fuel Hf. unfold spin. rewrite (Hout fuel Hf). reflexivity.
Qed.

End Cascade.

Lemma spin_returns_at_first_unrewarded_round_witness :
  (reward_at (source_of_kinds win_then_lose) insertion_sort 0 10 (new_GameService 100)
   = Some 200) /\
  (reward_at (source_of_kinds win_then_lose) insertion_sort 1 10 (new_GameService 100)
   = Some 0) /\
  (forall fuel, (1 < fuel)%nat ->
     exists rounds w', spin (source_of_kinds win_then_lose) insertion_sort fuel 10
                         (new_GameService 100) = Returned (rounds, w') /\
                       length rounds = 2%nat) /\
  (forall fuel, (fuel <= 1)%nat ->
     spin (source_of_kinds win_then_lose) insertion_sort fuel 10 (new_GameService 100)
     = OutOfFuel).
Proof.
  assert (H0 : reward_at (source_of_kinds win_then_lose) insertion_sort 0 10
                 (new_GameService 100) = Some 200) by (vm_compute; reflexivity).
  assert (H1 : reward_at (source_of_kinds win_then_lose) insertion_sort 1 10
                 (new_GameService 100) = Some 0) by (vm_compute; reflexivity).
  split; [exact H0|]. split; [exact H1|].
  apply (spin_returns_at_first_unrewarded_round (source_of_kinds win_then_lose)
           insertion_sort 10 (new_GameService 100) 1).
  - intros k Hk. replace k with 0%nat by lia. exists 200. split; [exact H0|lia].
  - exists 0. split; [exact H1|lia].
Defined.

(** With a random source whose every draw falls on kind 1, each fill of
    the empty board is thirty cells of kind 1: the round pays and clears
    the whole board. *)
Lemma round_all_kind1 (b i f : Z) (d : nat) (p bal : Z) :
  f <= 3 ->
  exists r, round (always (draw_of_kind 1)) insertion_sort false 10
              (mkWorld (mkGameService b i f) d) (mkLocals (replicate 30 None) p bal)
            = Returned (r, mkWorld (mkGameService b (i + 1) f) (d + 30),
                        mkLocals (replicate 30 None) (p + 1000) (bal + 1000)) /\
            reward (info r) = 1000.
Proof.
  intros Hf. unfold round, fillItems. cbn [service set_index fails].
  destruct (Z.ltb_spec 3 f); [lia|].
  eexists. split; [vm_compute; reflexivity|reflexivity].
Qed.

Lemma rounds_loop_all_kind1 (fuel : nat) :
  forall (b i f : Z) (d : nat) (p bal : Z),
    f <= 3 ->
    rounds_loop (always (draw_of_kind 1)) insertion_sort fuel false 10
      (mkWorld (mkGameService b i f) d) (mkLocals (replicate 30 None) p bal)
    = OutOfFuel.
Proof.
  induction fuel as [|fuel IH]; intros b i f d p bal Hf; [reflexivity|].
  cbn [rounds_loop]. destruct (round_all_kind1 b i f d p bal Hf) as (r & Hr & Hreward).
  rewrite Hr. cbn [mbind result_bind]. rewrite Hreward. cbn [Z.ltb Z.compare].
  rewrite IH by exact Hf. reflexivity.
Qed.

(** C2, as stated, fails: no amount of fuel lets [spin(10)] return on a
    service of balance 100000 when every draw falls on kind 1. *)
Lemma spin_without_cap_runs_on :
  ~ exists fuel res,
      spin (always (draw_of_kind 1)) insertion_sort fuel 10 (new_GameService 100000)
      = Returned res.
Proof.
  intros (fuel & res & Hspin). unfold spin, new_GameService in Hspin.
  cbn [service balance] in Hspin.
  change ((10 <=? 0) || (100000 <? 10)) with false in Hspin.
  rewrite rounds_loop_all_kind1 in Hspin by lia. discriminate.
Qed.

(** ** Round ids and the pity counter *)

Section Rounds.

Variable random : nat -> Random01.
Variable sort : forall A : Type, (A -> A -> Z) -> list A -> list A.

(** What [fillItems] does to the service, and what it returns when the
    showcase branch is taken. *)
Lemma fillItems_inv (w w' : World) (items : list (option Z)) (show : list Z) :
  fillItems random w items = Returned (show, w') ->
  index (service w') = index (service w) /\
  balance (service w') = balance (service w) /\
  fails (service w') = (if 3 <? fails (service w) then 0 else fails (service w)) /\
  (3 < fails (service w) ->
   exists type amount,
     (type, amount) ∈ showcaseCombinations /\
     show = fill_cells random (draws w + S amount)
              (showcase_writes random type amount (S (draws w)) items)).
Proof.
  unfold fillItems. destruct (Z.ltb_spec 3 (fails (service w))) as [Hf|Hf].
  - destruct (showcaseCombinations !! _) as [[type amount]|] eqn:Hlook; [|discriminate].
    cbn [required mbind result_bind]. intros [= <- <-].
    repeat split; try reflexivity.
    intros _. exists type, amount. split; [|reflexivity].
    eapply list_elem_of_lookup_2. exact Hlook.
  - intros [= <- <-]. repeat split; try reflexivity. lia.
Qed.

(** What a round does to the service. *)
Lemma round_inv (idle : bool) (bid : Z) (w w' : World) (l l' : Locals) (r : RoundInfo) :
  round random sort idle bid w l = Returned (r, w', l') ->
  id r = index (service w) + 1 /\
  index (service w') = index (service w) + 1 /\
  balance (service w') = balance (service w) /\
  fails (service w')
  = (if negb idle && (3 <? fails (service w)) then 0 else fails (service w)) /\
  l_balance l' = l_balance l + reward (info r) /\
  (idle = false ->
   fillItems random (set_index (index (service w) + 1) w) (l_items l)
   = Returned (show r, w')).
Proof.
  unfold round. destruct idle.
  - cbn [mbind result_bind]. destruct (fakeItems _ _ _) as [show1 w1] eqn:Hfake.
    unfold fakeItems in Hfake. injection Hfake as _ <-.
    destruct (findCombinations _) as [math1|]; [|discriminate].
    cbn [required mbind result_bind].
    destruct (moveItems _ _) as [move1 last1].
    intros [= <- <- <-]. repeat split; try reflexivity. discriminate.
  - destruct (fillItems _ _ _) as [[show1 w1]| |] eqn:Hfill; try discriminate.
    cbn [mbind result_bind].
    destruct (findCombinations _) as [math1|]; [|discriminate].
    cbn [required mbind result_bind].
    destruct (moveItems _ _) as [move1 last1].
    intros [= <- <- <-].
    apply fillItems_inv in Hfill as (Hi & Hb & Hf & _).
    cbn [id info reward show l_balance negb andb].
    repeat split; try assumption; reflexivity.
Qed.

(** The rounds of a wager take the ids that follow the index of the
    service, one after the other; the loop leaves the balance of the
    service alone and [fails] as the first fill left it. *)
Lemma rounds_loop_inv (fuel : nat) (idle : bool) (bid : Z) :
  forall (w w' : World) (l l' : Locals) (rounds : list RoundInfo),
    rounds_loop random sort fuel idle bid w l = Returned (rounds, w', l') ->
    ids rounds = range (index (service w) + 1) (length rounds) /\
    index (service w') = index (service w) + Z.of_nat (length rounds) /\
    balance (service w') = balance (service w) /\
    fails (service w')
    = (if negb idle && (3 <? fails (service w)) then 0 else fails (service w)) /\
    exists r rest, rounds = r :: rest /\
      (idle = false ->
       exists w1, fillItems random (set_index (index (service w) + 1) w) (l_items l)
                  = Returned (show r, w1)).
Proof.
  induction fuel as [|fuel IH]; intros w w' l l' rounds; [discriminate|].
  cbn [rounds_loop].
  destruct (round random sort idle bid w l) as [[[r w1] l1]| |] eqn:Hround;
    try discriminate.
  apply round_inv in Hround as (Hid & Hidx & Hbal & Hfails & _ & Hfill).
  cbn [mbind result_bind]. destruct (0 <? reward (info r)).
  - destruct (rounds_loop random sort fuel idle bid w1 l1) as [[[rest w2] l2]| |] eqn:Hloop;
      try discriminate.
    cbn [mbind result_bind]. intros [= <- <- <-].
    apply IH in Hloop as (Hids & Hidx' & Hbal' & Hfails' & _).
    repeat split.
    + unfold ids, range in *. cbn [fmap list_fmap length seq].
      rewrite Hid. f_equal; [lia|].
      rewrite Hids, Hidx, <- seq_shift, <- list_fmap_compose.
      apply list_fmap_ext. intros _ i _. cbn. lia.
    + cbn [length]. lia.
    + congruence.
    + rewrite Hfails', Hfails. destruct idle; [reflexivity|]. cbn [negb andb].
      destruct (Z.ltb_spec 3 (fails (service w))); [reflexivity|].
      destruct (Z.ltb_spec 3 (fails (service w))); [lia|reflexivity].
    + exists r, rest. split; [reflexivity|]. intros Hi. eauto.
  - intros [= <- <- <-]. repeat split.
    + unfold ids, range. cbn. rewrite Hid. f_equal. lia.
    + cbn [length]. lia.
    + exact Hbal.
    + exact Hfails.
    + exists r, []. split; [reflexivity|]. intros Hi. eauto.
Qed.

(** What [spin] does to the index and to [fails], and the first fill of a
    wager that is not idle. *)
Lemma spin_inv (fuel : nat) (bid : Z) (w w' : World) (rounds : list RoundInfo) :
  spin random sort fuel bid w = Returned (rounds, w') ->
  ids rounds = range (index (service w) + 1) (length rounds) /\
  index (service w') = index (service w) + Z.of_nat (length rounds) /\
  fails (service w')
  = (if (length rounds =? 1)%nat then fails_after_fill bid w + 1 else 0) /\
  (idle_bid bid w = true -> balance (service w') = balance (service w)) /\
  exists r rest, rounds = r :: rest /\
    (idle_bid bid w = false ->
     exists w1, fillItems random (set_index (index (service w) + 1) w) (replicate 30 None)
                = Returned (show r, w1)).
Proof.
  unfold spin, fails_after_fill, idle_bid.
  destruct (rounds_loop _ _ _ _ _ _ _) as [[[rounds1 w1] l1]| |] eqn:Hloop;
    try discriminate.
  apply rounds_loop_inv in Hloop as (Hids & Hidx & Hbal & Hfails & Hfirst).
  cbn [mbind result_bind l_items] in *. intros [= <- <-].
  repeat split.
  - exact Hids.
  - destruct (negb _), (length rounds1 =? 1)%nat; exact Hidx.
  - destruct ((bid <=? 0) || (balance (service w) <? bid)), (length rounds1 =? 1)%nat;
      cbn [negb andb] in *; cbn; rewrite ?Hfails; reflexivity.
  - intros ->. cbn [negb]. destruct (length rounds1 =? 1)%nat; exact Hbal.
  - exact Hfirst.
Qed.

End Rounds.

Lemma range_app (lo : Z) (a b : nat) :
  range lo (a + b) = range lo a ++ range (lo + Z.of_nat a) b.
Proof.
  unfold range. rewrite seq_app, fmap_app. f_equal. cbn [Nat.add].
  replace (seq a b) with (Nat.add a <$> seq 0 b)
    by (rewrite fmap_add_seq; f_equal; lia).
  rewrite <- list_fmap_compose. apply list_fmap_ext. intros _ i _. cbn. lia.
Qed.

Lemma range_bounds (lo : Z) (n : nat) (z : Z) :
  z ∈ range lo n -> lo <= z < lo + Z.of_nat n.
Proof.
  unfold range. intros (i & -> & Hi)%list_elem_of_fmap.
  apply list_elem_of_In, in_seq in Hi. lia.
Qed.

Lemma range_sorted (lo : Z) (n : nat) : StronglySorted Z.lt (range lo n).
Proof.
  revert lo. induction n as [|n IH]; intros lo; [constructor|].
  replace (S n) with (1 + n)%nat by reflexivity. rewrite range_app.
  apply StronglySorted_app_2.
  - intros x1 x2 Hx1%range_bounds Hx2%range_bounds. lia.
  - repeat constructor.
  - apply IH.
Qed.

(** The parts of a sorted concatenation are sorted, and every element of
    an earlier part is below every element of a later one. *)
Lemma sorted_concat_parts (ls : list (list Z)) :
  StronglySorted Z.lt (concat ls) ->
  (forall l, l ∈ ls -> StronglySorted Z.lt l) /\
  (forall i j l1 l2 a b, (i < j)%nat -> ls !! i = Some l1 -> ls !! j = Some l2 ->
     a ∈ l1 -> b ∈ l2 -> a < b).
Proof.
  induction ls as [|l ls IH]; cbn [concat].
  - intros _. split; [intros l Hl; inversion Hl|intros i j l1 l2 a b _ Hi; discriminate].
  - intros (Hcross & Hl & Hrest)%StronglySorted_app.
    destruct (IH Hrest) as [IH1 IH2]. split.
    + intros l' [->|Hin]%elem_of_cons; [exact Hl|apply IH1, Hin].
    + intros [|i] [|j] l1 l2 a b Hij H1 H2 Ha Hb; try lia.
      * injection H1 as <-. apply Hcross; [exact Ha|].
        apply list_elem_of_In, in_concat. exists l2.
        split; apply list_elem_of_In; [|exact Hb].
        eapply list_elem_of_lookup_2. exact H2.
      * apply (IH2 i j l1 l2 a b); [lia|assumption..].
Qed.

Section Ids.

Variable random : nat -> Random01.
Variable sort : forall A : Type, (A -> A -> Z) -> list A -> list A.

Lemma spins_ids (fuel : nat) (bids : list Z) :
  forall (w w' : World) (results : list (list RoundInfo)),
    spins random sort fuel bids w = Returned (results, w') ->
    concat (ids <$> results)
    = range (index (service w) + 1) (length (concat results)) /\
    index (service w') = index (service w) + Z.of_nat (length (concat results)).
Proof.
  induction bids as [|bid bids IH]; intros w w' results; cbn [spins].
  - intros [= <- <-]. split; [reflexivity|cbn; lia].
  - destruct (spin random sort fuel bid w) as [[rounds w1]| |] eqn:Hspin; try discriminate.
    cbn [mbind result_bind].
    destruct (spins random sort fuel bids w1) as [[rest w2]| |] eqn:Hrest; try discriminate.
    cbn [mbind result_bind]. intros [= <- <-].
    apply spin_inv in Hspin as (Hids & Hidx & _).
    apply IH in Hrest as (Hids' & Hidx').
    cbn [fmap list_fmap concat]. rewrite length_app, range_app, Hids, Hids', Hidx.
    split; [|lia]. do 2 f_equal. lia.
Qed.

(** C8. Round ids increase strictly and are never reused: through a
    sequence of wagers on one service the ids of all the rounds, in the
    order they are issued, are strictly increasing; so they are within each
    result, and every id of a later wager is above every id of an earlier
    one; and all of them are above the index the service started from. *)
Theorem round_ids_increase (fuel : nat) (bids : list Z) (w w' : World)
    (results : list (list RoundInfo)) :
  spins random sort fuel bids w = Returned (results, w') ->
  StronglySorted Z.lt (concat (ids <$> results)) /\
  (forall rounds, rounds ∈ results -> StronglySorted Z.lt (ids rounds)) /\
  (forall i j earlier later a b, (i < j)%nat ->
     results !! i = Some earlier -> results !! j = Some later ->
     a ∈ ids earlier -> b ∈ ids later -> a < b) /\
  (forall a, a ∈ concat (ids <$> results) ->
     index (service w) < a <= index (service w')).
Proof.
  intros Hspins. apply spins_ids in Hspins as [Hids Hidx].
  assert (Hsorted : StronglySorted Z.lt (concat (ids <$> results)))
    by (rewrite Hids; apply range_sorted).
  destruct (sorted_concat_parts _ Hsorted) as [Hparts Hcross].
  split; [exact Hsorted|]. split; [|split].
  - intros rounds Hin. apply Hparts, list_elem_of_fmap. eauto.
  - intros i j earlier later a b Hij Hi Hj.
    apply (Hcross i j); [exact Hij|rewrite list_lookup_fmap, Hi|rewrite list_lookup_fmap, Hj];
      reflexivity.
  - intros a Ha. rewrite Hids in Ha. apply range_bounds in Ha. lia.
Qed.

End Ids.

Lemma round_ids_increase_witness :
  exists results w',
    spins (source_of_kinds win_then_lose) insertion_sort 5 [10; 0; 10] (new_GameService 100)
    = Returned (results, w') /\
    concat (ids <$> results) = [1; 2; 3; 4] /\
    (StronglySorted Z.lt (concat (ids <$> results)) /\
     (forall rounds, rounds ∈ results -> StronglySorted Z.lt (ids rounds)) /\
     (forall i j earlier later a b, (i < j)%nat ->
        results !! i = Some earlier -> results !! j = Some later ->
        a ∈ ids earlier -> b ∈ ids later -> a < b) /\
     (forall a, a ∈ concat (ids <$> results) ->
        index (service (new_GameService 100)) < a <= index (service w'))).
Proof.
  destruct (spins (source_of_kinds win_then_lose) insertion_sort 5 [10; 0; 10]
              (new_GameService 100)) as [[results w']| |] eqn:Hspins;
    [|vm_compute in Hspins; discriminate..].
  exists results, w'. split; [reflexivity|]. split.
  - vm_compute in Hspins. injection Hspins as <- _. reflexivity.
  - apply (round_ids_increase (source_of_kinds win_then_lose) insertion_sort 5
             [10; 0; 10] (new_GameService 100) w' results Hspins).
Defined.

Section Pity.

Variable random : nat -> Random01.
Variable sort : forall A : Type, (A -> A -> Z) -> list A -> list A.

(** One-round wagers that start with [fails] at most 3 add one to it
    each. *)
Lemma spins_fails (fuel : nat) (bids : list Z) :
  forall (w w' : World) (results : list (list RoundInfo)),
    spins random sort fuel bids w = Returned (results, w') ->
    Forall (fun rounds => length rounds = 1%nat) results ->
    fails (service w) + Z.of_nat (length bids) <= 4 ->
    fails (service w') = fails (service w) + Z.of_nat (length bids).
Proof.
  induction bids as [|bid bids IH]; intros w w' results; cbn [spins].
  - intros [= <- <-] _ _. cbn. lia.
  - destruct (spin random sort fuel bid w) as [[rounds w1]| |] eqn:Hspin; try discriminate.
    cbn [mbind result_bind].
    destruct (spins random sort fuel bids w1) as [[rest w2]| |] eqn:Hrest; try discriminate.
    cbn [mbind result_bind]. intros [= <- <-] Hall Hle.
    apply Forall_cons in Hall as [Hone Hall]. cbn [length] in Hle.
    apply spin_inv in Hspin as (_ & _ & Hfails & _).
    rewrite Hone in Hfails. cbn [Nat.eqb] in Hfails.
    unfold fails_after_fill in Hfails.
    destruct (Z.ltb_spec 3 (fails (service w))); [lia|].
    rewrite andb_false_r in Hfails.
    rewrite (IH w1 w2 rest Hrest Hall) by lia. cbn [length]. lia.
Qed.

(** C4 (amended). A wager sets [fails] to one more than the value the
    counter has after its first fill if it has exactly one round, and to 0
    otherwise; that value is the one before the wager except when the
    wager is not idle and starts with [fails] above 3. After four
    one-round wagers counted from [fails = 0] the counter is 4, and a
    fifth wager that is not idle takes the showcase branch in its first
    fill: a pair of [showcaseCombinations] is written at random positions
    of the empty board, [fails] is reset to 0 there, and the rest is
    filled by the thresholds. An idle wager does not call [fillItems]. *)
Theorem pity_counter (fuel : nat) (bids : list Z) (w w4 w5 : World)
    (results : list (list RoundInfo)) (bid : Z) (rounds : list RoundInfo) :
  fails (service w) = 0 -> length bids = 4%nat ->
  spins random sort fuel bids w = Returned (results, w4) ->
  Forall (fun rs => length rs = 1%nat) results ->
  idle_bid bid w4 = false ->
  spin random sort fuel bid w4 = Returned (rounds, w5) ->
  (forall fuel0 bid0 w0 w0' rounds0,
     spin random sort fuel0 bid0 w0 = Returned (rounds0, w0') ->
     fails (service w0')
     = if (length rounds0 =? 1)%nat then fails_after_fill bid0 w0 + 1 else 0) /\
  (forall bid0 w0,
     fails_after_fill bid0 w0
     = if idle_bid bid0 w0 then fails (service w0)
       else if 3 <? fails (service w0) then 0 else fails (service w0)) /\
  fails (service w4) = 4 /\
  exists r rest type amount w1,
    rounds = r :: rest /\
    (type, amount) ∈ showcaseCombinations /\
    fillItems random (set_index (index (service w4) + 1) w4) (replicate 30 None)
    = Returned (show r, w1) /\
    show r = fill_cells random (draws w4 + S amount)
               (showcase_writes random type amount (S (draws w4)) (replicate 30 None)) /\
    fails (service w1) = 0 /\
    fails (service w5) = (if (length rounds =? 1)%nat then 1 else 0).
Proof.
  intros Hzero Hfour Hspins Hall Hidle Hspin.
  assert (Hw4 : fails (service w4) = 4).
  { rewrite (spins_fails fuel bids w w4 results Hspins Hall) by (rewrite Hzero, Hfour; lia).
    rewrite Hzero, Hfour. reflexivity. }
  split; [|split; [|split; [exact Hw4|]]].
  - intros fuel0 bid0 w0 w0' rounds0 H0. apply spin_inv in H0 as (_ & _ & Hf & _). exact Hf.
  - intros bid0 w0. unfold fails_after_fill. destruct (idle_bid bid0 w0); reflexivity.
  - apply spin_inv in Hspin as (_ & _ & Hfails & _ & r & rest & -> & Hfill).
    destruct (Hfill Hidle) as [w1 Hw1].
    pose proof (fillItems_inv random _ _ _ _ Hw1) as (_ & _ & Hreset & Hshow).
    cbn [set_index service fails draws] in Hreset, Hshow.
    rewrite Hw4 in Hreset, Hshow.
    destruct (Hshow ltac:(lia)) as (type & amount & Hin & Heq).
    exists r, rest, type, amount, w1.
    repeat split; try assumption.
    rewrite Hfails. unfold fails_after_fill. rewrite Hidle, Hw4. reflexivity.
Qed.

End Pity.

Lemma pity_counter_witness :
  exists results w4 rounds w5,
    spins (source_of_kinds six_of_five) insertion_sort 5 [1; 1; 1; 1] (new_GameService 100)
    = Returned (results, w4) /\
    spin (source_of_kinds six_of_five) insertion_sort 5 1 w4 = Returned (rounds, w5) /\
    fails (service w4) = 4 /\
    exists r rest type amount w1,
      rounds = r :: rest /\
      (type, amount) ∈ showcaseCombinations /\
      fillItems (source_of_kinds six_of_five) (set_index (index (service w4) + 1) w4)
        (replicate 30 None) = Returned (show r, w1) /\
      show r = fill_cells (source_of_kinds six_of_five) (draws w4 + S amount)
                 (showcase_writes (source_of_kinds six_of_five) type amount
                    (S (draws w4)) (replicate 30 None)) /\
      fails (service w1) = 0 /\
      fails (service w5) = (if (length rounds =? 1)%nat then 1 else 0).
Proof.
  destruct (spins (source_of_kinds six_of_five) insertion_sort 5 [1; 1; 1; 1]
              (new_GameService 100)) as [[results w4]| |] eqn:Hspins;
    [|vm_compute in Hspins; discriminate..].
  destruct (spin (source_of_kinds six_of_five) insertion_sort 5 1 w4)
    as [[rounds w5]| |] eqn:Hspin;
    [|vm_compute in Hspins; injection Hspins as _ <-; vm_compute in Hspin; discriminate..].
  exists results, w4, rounds, w5. split; [reflexivity|]. split; [exact Hspin|].
  apply (pity_counter (source_of_kinds six_of_five) insertion_sort 5 [1; 1; 1; 1]
           (new_GameService 100) w4 w5 results 1 rounds).
  - reflexivity.
  - reflexivity.
  - exact Hspins.
  - vm_compute in Hspins. injection Hspins as <- _. repeat constructor.
  - vm_compute in Hspins. injection Hspins as _ <-. reflexivity.
  - exact Hspin.
Defined.

(** C4, as stated, fails. Five wagers of bid 0 on a new service have one
    round each; the fifth follows four one-round wagers, and [fails] is 5
    after it: no showcase placement was applied and the counter was not
    reset. And of six wagers of bid 1, each of one round and none of them
    idle, the sixth follows four one-round wagers (the second to the
    fifth) with [fails] at 2 after it: the showcase placement of the fifth
    had reset the counter. *)
Lemma four_one_round_wagers_without_showcase :
  (exists results w',
     spins (always (draw_of_kind 6)) insertion_sort 1 [0; 0; 0; 0; 0] (new_GameService 100)
     = Returned (results, w') /\
     Forall (fun rs => length rs = 1%nat) results /\
     fails (service w') = 5) /\
  (exists results w',
     spins (source_of_kinds six_of_five) insertion_sort 5 [1; 1; 1; 1; 1; 1]
       (new_GameService 100) = Returned (results, w') /\
     Forall (fun rs => length rs = 1%nat) results /\
     Forall (fun bid => 0 < bid <= 94) [1; 1; 1; 1; 1; 1] /\
     balance (service w') = 94 /\
     fails (service w') = 2).
Proof.
  split.
  - destruct (spins (always (draw_of_kind 6)) insertion_sort 1 [0; 0; 0; 0; 0]
                (new_GameService 100)) as [[results w']| |] eqn:Hspins;
      [|vm_compute in Hspins; discriminate..].
    exists results, w'. split; [reflexivity|].
    vm_compute in Hspins. injection Hspins as <- <-.
    split; [repeat constructor|reflexivity].
  - destruct (spins (source_of_kinds six_of_five) insertion_sort 5 [1; 1; 1; 1; 1; 1]
                (new_GameService 100)) as [[results w']| |] eqn:Hspins;
      [|vm_compute in Hspins; discriminate..].
    exists results, w'. split; [reflexivity|].
    vm_compute in Hspins. injection Hspins as <- <-.
    split; [repeat constructor|]. split; [repeat constructor; lia|].
    split; reflexivity.
Qed.

(** ** Grouping, matching and blowing, beyond the claims *)

(** X1. [groupItems] holds for a key the number of cells with that item,
    and has no entry for an item that is on no cell. *)
Theorem groupItems_counts (items : list Z) (k n : Z) :
  groupItems items !! k = Some n <-> n = tally k items /\ k ∈ items.
Proof.
  rewrite groupItems_lookup. pose proof (tally_nonneg k items) as H0. split.
  - case_decide as Hk; [discriminate|]. intros [= <-]. split; [reflexivity|].
    apply tally_pos_elem. lia.
  - intros [-> Hin]. case_decide as Hk; [|reflexivity]. exfalso.
    apply list_elem_of_In in Hin.
    apply (count_occ_In Z.eq_dec) in Hin. unfold tally in Hk. lia.
Qed.

Lemma multipliers_insert_Some (k v c : Z) (m : gmap Z Z) :
  m !! k = Some c -> multipliers (<[ k := v ]> m) = multipliers m - c + v.
Proof.
  intros Hk. rewrite <- (insert_delete_eq m k v).
  rewrite <- (insert_delete_id m k c Hk) at 2.
  rewrite !multipliers_insert by apply lookup_delete_eq. lia.
Qed.

Lemma groupItems_foldl_total (items : list Z) (groups : gmap Z Z) :
  map_Forall (fun _ c => 0 < c) groups ->
  multipliers (foldl (fun groups item =>
           <[ item := match groups !! item with
                      | Some c => js_or (c + 1) 1
                      | None => 1
                      end ]> groups) groups items)
  = multipliers groups + Z.of_nat (length items).
Proof.
  revert groups. induction items as [|x items IH]; intros groups Hpos.
  - cbn [foldl length]. lia.
  - cbn [foldl length]. rewrite IH.
    + destruct (groups !! x) as [c|] eqn:Hc.
      * rewrite (multipliers_insert_Some x _ c) by exact Hc.
        apply Hpos in Hc. unfold js_or, truthy.
        destruct (Z.eqb_spec (c + 1) 0); cbn [negb]; lia.
      * rewrite multipliers_insert by exact Hc. lia.
    + intros i c. destruct (decide (x = i)) as [<-|Hi].
      * rewrite lookup_insert_eq. intros Heq. apply (inj Some) in Heq. rewrite <- Heq.
        destruct (groups !! x) as [c'|] eqn:Hc; [|lia].
        apply Hpos in Hc. unfold js_or, truthy.
        destruct (Z.eqb_spec (c' + 1) 0); simpl; lia.
      * rewrite lookup_insert_ne by done. apply Hpos.
Qed.

(** X2. The counts of [groupItems] add up to the number of cells. *)
Theorem groupItems_total (items : list Z) :
  multipliers (groupItems items) = Z.of_nat (length items).
Proof.
  unfold groupItems. rewrite groupItems_foldl_total by apply map_Forall_empty.
  reflexivity.
Qed.

Lemma rewards_of_is_Some (k : Z) : is_Some (rewards_of k) <-> kind k.
Proof.
  split; [|apply rewards_of_kind].
  unfold rewards_of, kind. destruct (Z.leb_spec 0 k) as [H0|H0].
  - intros Hs. apply lookup_lt_is_Some in Hs. cbn [length itemsRewards] in Hs. lia.
  - intros [? ?]. discriminate.
Qed.

(** X3. [findCombinations] on the groups of a board throws exactly when
    some cell holds an item that is not a kind of 0 to 9 (as the [-1] of a
    failed threshold search would be): [itemsRewards[item]] is then
    [undefined]. *)
Theorem findCombinations_throws_iff (show : list Z) :
  findCombinations (groupItems show) = None <-> ~ Forall kind show.
Proof.
  split.
  - intros Hnone Hall.
    destruct (findCombinations_groupItems show Hall) as (math & Hmath & _). congruence.
  - intros Hnot. unfold findCombinations. destruct (decide _) as [Hall|]; [|reflexivity].
    exfalso. apply Hnot. apply Forall_forall. intros k Hk.
    apply rewards_of_is_Some. apply (Hall k (tally k show)).
    rewrite groupItems_lookup. case_decide as H0; [|reflexivity]. exfalso.
    apply list_elem_of_In in Hk. apply (count_occ_In Z.eq_dec) in Hk.
    unfold tally in H0. lia.
Qed.

Lemma property_name_truthy (k : Z) : kind k -> truthy_string (property_name k) = true.
Proof.
  intros Hk. assert (Hin : k ∈ range 0 10) by (apply range_elem; unfold kind in Hk; lia).
  revert Hin. generalize k. apply Forall_forall.
  repeat (constructor; [reflexivity|]). constructor.
Qed.

(** For a kind, only the amount capped at 12 counts. *)
Lemma credited_capped (k amount : Z) :
  kind k -> credited k amount = credited k (Z.min amount 12).
Proof.
  intros Hk. unfold credited. destruct (rewards_of k) as [add|]; [|reflexivity].
  cbn [mbind option_bind]. unfold combination.
  rewrite (property_name_truthy k Hk). cbv zeta.
  replace (Z.min (Z.min amount 12) 12) with (Z.min amount 12) by lia. reflexivity.
Qed.

(** Which kinds are paid for which amounts, for every positive amount. *)
Lemma credited_is_Some (k amount : Z) :
  kind k -> 1 <= amount ->
  (is_Some (credited k amount)
   <-> (k = 0 /\ 4 <= amount <= 6) \/ (1 <= k <= 9 /\ 8 <= amount)) /\
  (forall m, credited k amount = Some m -> 1 <= m <= 200).
Proof.
  intros Hk Ha. rewrite (credited_capped k amount Hk).
  assert (Hcap : 1 <= Z.min amount 12 <= 30) by lia.
  pose proof (payout_table k (Z.min amount 12) Hk Hcap) as Hcheck.
  assert (Hin : k ∈ range 0 10) by (apply range_elem; unfold kind in Hk; lia).
  assert (Hain : Z.min amount 12 ∈ range 1 12) by (apply range_elem; lia).
  assert (Hbound : forallb (fun k => forallb (fun a =>
              match credited k a with Some m => (1 <=? m) && (m <=? 200) | None => true end)
              (range 1 12)) (range 0 10) = true) by (vm_compute; reflexivity).
  rewrite forallb_forall in Hbound.
  specialize (Hbound k (proj1 (list_elem_of_In _ _) Hin)).
  rewrite forallb_forall in Hbound.
  specialize (Hbound _ (proj1 (list_elem_of_In _ _) Hain)).
  unfold payout_check, kind in *.
  destruct (credited k (Z.min amount 12)) as [m|]; split.
  - split; [intros _|eauto]. destruct (Z.eqb_spec k 0); lia.
  - intros m' [= <-]. lia.
  - split; [intros [? ?]; discriminate|]. intros Hor. exfalso.
    destruct (Z.eqb_spec k 0); lia.
  - intros m' ?. discriminate.
Qed.

(** What [findCombinations] holds for a key, on a board of kinds. *)
Lemma matched_lookup (show : list Z) (math : gmap Z Z) (k : Z) :
  Forall kind show -> findCombinations (groupItems show) = Some math ->
  (is_Some (math !! k)
   <-> (k = 0 /\ 4 <= tally 0 show <= 6) \/ (1 <= k <= 9 /\ 8 <= tally k show)) /\
  (forall m, math !! k = Some m -> 1 <= m <= 200).
Proof.
  intros Hall Hmath.
  destruct (findCombinations_groupItems show Hall) as (math' & Hmath' & Hlook).
  assert (math' = math) by congruence. subst math'.
  rewrite Hlook. case_decide as H0.
  - split; [|intros m; discriminate].
    split; [intros [? ?]; discriminate|]. intros [[-> ?]|[? ?]]; lia.
  - pose proof (tally_nonneg k show).
    assert (Hkind : kind k).
    { rewrite Forall_forall in Hall. apply Hall, tally_pos_elem. lia. }
    destruct (credited_is_Some k (tally k show) Hkind ltac:(lia)) as [Hiff Hpos].
    split; [|exact Hpos].
    rewrite Hiff. split; (intros [[-> ?]|?]; [left|right]); tauto.
Qed.

(** X4. The kinds that [findCombinations] credits on a board of kinds: a
    kind of 1 to 9 exactly when at least 8 cells hold it, kind 0 exactly
    when 4, 5 or 6 cells hold it (and not when more do); every multiplier
    credited is between 1 and 200. *)
Theorem findCombinations_matched_kinds (show : list Z) :
  Forall kind show ->
  exists math, findCombinations (groupItems show) = Some math /\
    (forall k, is_Some (math !! k)
               <-> (k = 0 /\ 4 <= tally 0 show <= 6)
                   \/ (1 <= k <= 9 /\ 8 <= tally k show)) /\
    (forall k m, math !! k = Some m -> 1 <= m <= 200).
Proof.
  intros Hall.
  destruct (findCombinations_groupItems show Hall) as (math & Hmath & _).
  exists math. split; [exact Hmath|]. split.
  - intros k. apply (matched_lookup show math k Hall Hmath).
  - intros k. apply (matched_lookup show math k Hall Hmath).
Qed.

Lemma findCombinations_matched_kinds_witness :
  exists math, findCombinations (groupItems fifteen_of_kind1) = Some math /\
    (forall k, is_Some (math !! k)
               <-> (k = 0 /\ 4 <= tally 0 fifteen_of_kind1 <= 6)
                   \/ (1 <= k <= 9 /\ 8 <= tally k fifteen_of_kind1)) /\
    (forall k m, math !! k = Some m -> 1 <= m <= 200).
Proof.
  apply (findCombinations_matched_kinds fifteen_of_kind1).
  unfold kind. repeat (constructor; [lia|]). constructor.
Defined.

Lemma blowItems_from (math : gmap Z Z) (show : list Z) (s i : nat) :
  i ∈ omap (fun '(i, item) => if truthy_prop (math !! item) then Some i else None)
        (zip (seq s (length show)) show)
  <-> (s <= i)%nat /\
      exists item, show !! (i - s)%nat = Some item /\ truthy_prop (math !! item) = true.
Proof.
  revert s. induction show as [|x show IH]; intros s.
  - cbn. split; [intros H; inversion H|intros (_ & item & H & _); discriminate].
  - cbn [length seq zip zip_with omap list_omap].
    destruct (truthy_prop (math !! x)) eqn:Hx.
    + rewrite elem_of_cons, IH. split.
      * intros [->|(Hs & item & Hl & Ht)].
        -- split; [lia|]. exists x. rewrite Nat.sub_diag. split; [reflexivity|exact Hx].
        -- split; [lia|]. exists item. split; [|exact Ht].
           replace (i - s)%nat with (S (i - S s)) by lia. exact Hl.
      * intros (Hs & item & Hl & Ht). destruct (decide (i = s)) as [->|Hne]; [left; reflexivity|].
        right. split; [lia|]. exists item. split; [|exact Ht].
        replace (i - s)%nat with (S (i - S s)) in Hl by lia. exact Hl.
    + rewrite IH. split.
      * intros (Hs & item & Hl & Ht). split; [lia|]. exists item. split; [|exact Ht].
        replace (i - s)%nat with (S (i - S s)) by lia. exact Hl.
      * intros (Hs & item & Hl & Ht). destruct (decide (i = s)) as [->|Hne].
        -- rewrite Nat.sub_diag in Hl. injection Hl as <-. congruence.
        -- split; [lia|]. exists item. split; [|exact Ht].
           replace (i - s)%nat with (S (i - S s)) in Hl by lia. exact Hl.
Qed.

Lemma blowItems_sorted_from (math : gmap Z Z) (show : list Z) (s : nat) :
  StronglySorted lt
    (omap (fun '(i, item) => if truthy_prop (math !! item) then Some i else None)
       (zip (seq s (length show)) show)).
Proof.
  revert s. induction show as [|x show IH]; intros s; [constructor|].
  cbn [length seq zip zip_with omap list_omap].
  destruct (truthy_prop (math !! x)); [|apply IH].
  constructor; [apply IH|]. apply Forall_forall. intros i Hi.
  apply blowItems_from in Hi. lia.
Qed.

Lemma blowItems_elem (show : list Z) (math : gmap Z Z) (i : nat) :
  i ∈ blowItems show math
  <-> exists item, show !! i = Some item /\ truthy_prop (math !! item) = true.
Proof.
  unfold blowItems. rewrite blowItems_from, Nat.sub_0_r.
  split; [intros [_ H]; exact H|intros H; split; [lia|exact H]].
Qed.

(** X5. [blowItems] lists the positions whose item has a truthy entry in
    [math], each once and in increasing order. *)
Theorem blowItems_positions (show : list Z) (math : gmap Z Z) :
  (forall i, i ∈ blowItems show math
             <-> exists item, show !! i = Some item /\ truthy_prop (math !! item) = true) /\
  StronglySorted lt (blowItems show math).
Proof.
  split.
  - intros i. unfold blowItems. rewrite blowItems_from, Nat.sub_0_r.
    split; [intros [_ H]; exact H|intros H; split; [lia|exact H]].
  - apply blowItems_sorted_from.
Qed.

(** X6. On a board of kinds a cell is blown exactly when its kind is
    credited, and no cell is blown exactly when nothing is credited: so
    the cells of a kind of 1 to 9 go when at least 8 cells hold it, those
    of kind 0 when 4, 5 or 6 do. *)
Theorem blowItems_matched (show : list Z) (math : gmap Z Z) :
  Forall kind show -> findCombinations (groupItems show) = Some math ->
  (forall i, i ∈ blowItems show math
             <-> exists k, show !! i = Some k /\
                   ((k = 0 /\ 4 <= tally 0 show <= 6) \/ (1 <= k <= 9 /\ 8 <= tally k show))) /\
  (blowItems show math = [] <-> math = ∅).
Proof.
  intros Hall Hmath.
  assert (Hsome : forall k, is_Some (math !! k)
            <-> (k = 0 /\ 4 <= tally 0 show <= 6) \/ (1 <= k <= 9 /\ 8 <= tally k show))
    by (intros k; apply (matched_lookup show math k Hall Hmath)).
  assert (Hpos : forall k m, math !! k = Some m -> 1 <= m <= 200)
    by (intros k; apply (matched_lookup show math k Hall Hmath)).
  assert (Htruthy : forall k, truthy_prop (math !! k) = true <-> is_Some (math !! k)).
  { intros k. destruct (math !! k) as [m|] eqn:Hm; cbn.
    - apply Hpos in Hm. unfold truthy. destruct (Z.eqb_spec m 0); [lia|].
      split; [eauto|reflexivity].
    - split; [discriminate|intros [? ?]; discriminate]. }
  assert (Hblow : forall i, i ∈ blowItems show math
             <-> exists k, show !! i = Some k /\ is_Some (math !! k)).
  { intros i. rewrite (blowItems_elem show math i).
    split; intros (k & Hk & Ht); exists k; (split; [exact Hk|]); apply Htruthy, Ht. }
  split.
  - intros i. rewrite Hblow. split; intros (k & Hk & Ht); exists k; (split; [exact Hk|]);
      apply Hsome, Ht.
  - split.
    + intros Hnil. apply map_eq. intros k. rewrite lookup_empty.
      destruct (math !! k) as [m|] eqn:Hm; [exfalso|reflexivity].
      assert (Hin : k ∈ show).
      { destruct (findCombinations_groupItems show Hall) as (math' & Hmath'' & Hlook).
        assert (math' = math) by congruence. subst math'.
        rewrite Hlook in Hm. case_decide as H0; [discriminate|].
        apply tally_pos_elem. pose proof (tally_nonneg k show). lia. }
      apply list_elem_of_lookup in Hin as [i Hi].
      assert (Hbi : i ∈ blowItems show math) by (apply Hblow; eauto).
      rewrite Hnil in Hbi. inversion Hbi.
    + intros ->.
      assert (Hno : forall i, i ∉ blowItems show ∅).
      { intros i (k & _ & [? Hk])%Hblow. rewrite lookup_empty in Hk. discriminate. }
      destruct (blowItems show ∅) as [|i l]; [reflexivity|exfalso].
      apply (Hno i). left.
Qed.

Lemma blowItems_matched_witness :
  Forall kind fifteen_of_kind1 /\
  (forall i, i ∈ blowItems fifteen_of_kind1 {[ 1 := 100 ]}
             <-> exists k, fifteen_of_kind1 !! i = Some k /\
                   ((k = 0 /\ 4 <= tally 0 fifteen_of_kind1 <= 6)
                    \/ (1 <= k <= 9 /\ 8 <= tally k fifteen_of_kind1))) /\
  (blowItems fifteen_of_kind1 {[ 1 := 100 ]} = [] <-> ({[ 1 := 100 ]} : gmap Z Z) = ∅).
Proof.
  assert (Hall : Forall kind fifteen_of_kind1)
    by (unfold kind; repeat (constructor; [lia|]); constructor).
  split; [exact Hall|].
  apply (blowItems_matched fifteen_of_kind1 {[ 1 := 100 ]} Hall). reflexivity.
Defined.

(** ** Gravity, beyond the claims *)

Lemma array_set_lt {A} (i : nat) (v : option A) (l : list (option A)) :
  (i < length l)%nat -> array_set i v l = <[ i := v ]> l.
Proof. intros Hi. unfold array_set. destruct (Nat.ltb_spec i (length l)); [reflexivity|lia]. Qed.

Lemma gravity_inv_weaken (start : list (option Z)) (U U' : nat -> Prop)
    (st : gmap nat nat * list (option Z)) :
  (forall p, U' p -> U p) -> gravity_inv start U st -> gravity_inv start U' st.
Proof.
  intros Hsub (Hlen & Hmove & Hun & Hdest).
  split; [exact Hlen|]. split; [|split; [|exact Hdest]].
  - intros p q Hpq. destruct (Hmove p q Hpq) as (Hq & ?). split; [|assumption].
    intros Hq'. apply Hq, Hsub, Hq'.
  - intros p Hp. apply Hun, Hsub, Hp.
Qed.

(** A step of gravity at an untouched position [i], with the positions
    from [lo] to [i] untouched, keeps the invariant and leaves [i] done. *)
Lemma settle_gravity_inv (start : list (option Z)) (U : nat -> Prop) (lo i : nat)
    (st : gmap nat nat * list (option Z)) :
  (forall p, (lo <= p <= i)%nat -> U p) -> (i < length start)%nat ->
  gravity_inv start U st ->
  gravity_inv start (fun p => U p /\ p <> i) (settle lo i st).
Proof.
  intros Hrange Hi Hinv.
  assert (Hweak : gravity_inv start (fun p => U p /\ p <> i) st)
    by (apply (gravity_inv_weaken start U); [tauto|exact Hinv]).
  destruct st as [move last]. unfold settle.
  destruct (is_null (last !! i)) eqn:Hnull; [|exact Hweak].
  destruct (search_up last lo (i - lo)) as [[j v]|] eqn:Hs; [|exact Hweak].
  clear Hweak. destruct Hinv as (Hlen & Hmove & Hun & Hdest). cbn [fst snd] in *.
  apply search_up_found in Hs as [Hj Hlj].
  assert (HUj : U j) by (apply Hrange; lia).
  assert (HUi : U i) by (apply Hrange; lia).
  assert (Hmj : move !! j = None).
  { pose proof (Hun j HUj) as Hb. destruct (move !! j); [congruence|reflexivity]. }
  assert (Hsj : start !! j = Some (Some v)).
  { pose proof (Hun j HUj) as Hb. rewrite Hmj in Hb. congruence. }
  assert (Hij : i <> j) by lia.
  rewrite (array_set_lt i) by lia.
  rewrite (array_set_lt j) by (rewrite length_insert; lia).
  split; [|split; [|split]]; cbn [fst snd].
  - rewrite !length_insert. exact Hlen.
  - intros p q. destruct (decide (j = p)) as [<-|Hne].
    + rewrite lookup_insert_eq. intros [= <-]. split; [tauto|]. split; [lia|eauto].
    + rewrite lookup_insert_ne by done. intros Hpq.
      destruct (Hmove p q Hpq) as (Hq & ?). split; [tauto|assumption].
  - intros p [Hp Hpi]. destruct (decide (j = p)) as [<-|Hne].
    + rewrite lookup_insert_eq. apply list_lookup_insert_eq. rewrite length_insert. lia.
    + rewrite lookup_insert_ne by done.
      rewrite !list_lookup_insert_ne by done. apply Hun, Hp.
  - intros p w Hp. unfold destination. destruct (decide (j = p)) as [<-|Hne].
    + rewrite lookup_insert_eq. cbn [from_option Datatypes.id].
      rewrite list_lookup_insert_ne by done.
      rewrite list_lookup_insert_eq by lia. congruence.
    + rewrite lookup_insert_ne by done.
      specialize (Hdest p w Hp). unfold destination in Hdest.
      assert (Hd : default p (move !! p) <> i /\ default p (move !! p) <> j).
      { destruct (move !! p) as [q|] eqn:Hq; cbn [from_option Datatypes.id] in *.
        - destruct (Hmove p q Hq) as (HUq & _). split; intros ->; tauto.
        - split; [|congruence]. intros ->.
          pose proof (Hun i HUi) as Hb. rewrite Hq in Hb.
          rewrite Hb, Hp in Hnull. discriminate. }
      rewrite !list_lookup_insert_ne by (intros ?; subst; tauto). exact Hdest.
Qed.

Lemma settle_column_gravity_inv (start : list (option Z)) (x : nat)
    (st : gmap nat nat * list (option Z)) :
  (x * 5 + 4 < length start)%nat ->
  gravity_inv start (fun p => (x * 5 <= p)%nat) st ->
  gravity_inv start (fun p => (S x * 5 <= p)%nat) (settle_column st x).
Proof.
  intros Hlen Hinv. unfold settle_column. cbn [seq foldl Nat.sub].
  eapply gravity_inv_weaken;
    [|apply settle_gravity_inv; [| |apply settle_gravity_inv;
        [| |apply settle_gravity_inv; [| |apply settle_gravity_inv; [| |exact Hinv]]]]].
  all: cbn beta; try lia.
  all: intros p Hp; repeat split; lia.
Qed.

Lemma moveItems_gravity_inv (show : list Z) (blow : list nat) :
  length show = 30%nat ->
  gravity_inv (clear show blow) (fun p => (6 * 5 <= p)%nat) (moveItems show blow).
Proof.
  intros Hlen.
  assert (Hclear : length (clear show blow) = 30%nat)
    by (unfold clear; rewrite length_imap; exact Hlen).
  unfold moveItems. cbn [seq foldl].
  do 6 (apply settle_column_gravity_inv; [rewrite Hclear; lia|]).
  split; [reflexivity|]. split; [|split]; cbn [fst snd].
  - intros p q. rewrite lookup_empty. discriminate.
  - intros p _. rewrite lookup_empty. reflexivity.
  - intros p v Hp. unfold destination. rewrite lookup_empty. exact Hp.
Qed.

Lemma clear_lookup (show : list Z) (blow : list nat) (p : nat) (v : Z) :
  clear show blow !! p = Some (Some v) <-> show !! p = Some v /\ p ∉ blow.
Proof.
  unfold clear. rewrite list_lookup_imap.
  destruct (show !! p) as [w|]; cbn; [|split; [discriminate|intros [? ?]; discriminate]].
  case_bool_decide; split; try discriminate; try tauto.
  - intros [= ->]. tauto.
  - intros [[= ->] _]. reflexivity.
Qed.

(** X7. On a 30-cell board the move map of [moveItems] tells where every
    surviving item is in [last]: at the position its entry names, or where
    it was when it has no entry. An entry is always the fall of a surviving
    item to a position further down. *)
Theorem moveItems_destinations (show : list Z) (blow : list nat) :
  length show = 30%nat ->
  (forall from to, (moveItems show blow).1 !! from = Some to ->
     (from < to)%nat /\ (from ∉ blow) /\ is_Some (show !! from)) /\
  (forall p v, show !! p = Some v -> p ∉ blow ->
     (moveItems show blow).2 !! destination (moveItems show blow).1 p = Some (Some v)).
Proof.
  intros Hlen.
  destruct (moveItems_gravity_inv show blow Hlen) as (_ & Hmove & _ & Hdest). split.
  - intros from to Hft. destruct (Hmove from to Hft) as (_ & Hlt & v & Hv).
    apply clear_lookup in Hv as [Hv Hnb]. split; [exact Hlt|]. split; [exact Hnb|eauto].
  - intros p v Hp Hnb. apply Hdest, clear_lookup. tauto.
Qed.

Lemma moveItems_destinations_witness :
  (forall from to, (moveItems seven_of_kind0 [2; 4]%nat).1 !! from = Some to ->
     (from < to)%nat /\ (from ∉ [2; 4]%nat) /\ is_Some (seven_of_kind0 !! from)) /\
  (forall p v, seven_of_kind0 !! p = Some v -> p ∉ [2; 4]%nat ->
     (moveItems seven_of_kind0 [2; 4]%nat).2
       !! destination (moveItems seven_of_kind0 [2; 4]%nat).1 p = Some (Some v)).
Proof. apply (moveItems_destinations seven_of_kind0 [2; 4]%nat). reflexivity. Defined.

Lemma settle_full (lo i : nat) (st : gmap nat nat * list (option Z)) :
  is_null (st.2 !! i) = false -> settle lo i st = st.
Proof. destruct st as [move last]. unfold settle. cbn [snd]. intros ->. reflexivity. Qed.

(** X8. When no position of the board is blown, and the board has at
    least 30 cells, nothing moves: the move map is empty and [last] is
    the board shown. *)
Theorem moveItems_nothing_blown (show : list Z) (blow : list nat) :
  (30 <= length show)%nat -> (forall i, i ∈ blow -> (length show <= i)%nat) ->
  moveItems show blow = (∅, Some <$> show).
Proof.
  intros Hlen Hblow.
  assert (Hclear : clear show blow = Some <$> show).
  { unfold clear. apply list_eq. intros i. rewrite list_lookup_imap, list_lookup_fmap.
    destruct (show !! i) as [v|] eqn:Hv; [|reflexivity]. cbn.
    case_bool_decide as Hi; [|reflexivity].
    apply Hblow in Hi. apply lookup_lt_Some in Hv. lia. }
  assert (Hfull : forall i, (i < 30)%nat -> is_null ((Some <$> show) !! i) = false).
  { intros i Hi. rewrite list_lookup_fmap.
    destruct (lookup_lt_is_Some_2 show i) as [v ->]; [lia|reflexivity]. }
  unfold moveItems. rewrite Hclear. cbn [seq foldl]. unfold settle_column.
  cbn [seq foldl Nat.sub Nat.mul Nat.add].
  repeat (rewrite (settle_full _ _ (∅, Some <$> show)) by (apply Hfull; lia)).
  reflexivity.
Qed.

Lemma moveItems_nothing_blown_witness :
  moveItems seven_of_kind0 [] = (∅, Some <$> seven_of_kind0).
Proof.
  apply (moveItems_nothing_blown seven_of_kind0 []).
  - cbn. lia.
  - intros i Hi. inversion Hi.
Defined.

(** ** Filling, beyond the claims *)

Lemma holding_cons (type : Z) (c : option Z) (items : list (option Z)) :
  holding type (c :: items)
  = ((if decide (c = Some type) then 1 else 0) + holding type items)%nat.
Proof. unfold holding. rewrite filter_cons. destruct (decide _); reflexivity. Qed.

Lemma holding_insert (type : Z) (i : nat) (items : list (option Z)) :
  (i < length items)%nat ->
  (holding type items <= holding type (<[ i := Some type ]> items)
   <= S (holding type items))%nat /\
  (1 <= holding type (<[ i := Some type ]> items))%nat.
Proof.
  revert i. induction items as [|c items IH]; intros i Hi; [cbn in Hi; lia|].
  destruct i as [|i].
  - change (<[ 0%nat := Some type ]> (c :: items)) with (Some type :: items).
    rewrite !holding_cons. repeat case_decide; try congruence; lia.
  - change (<[ S i := Some type ]> (c :: items)) with (c :: <[ i := Some type ]> items).
    rewrite !holding_cons. cbn [length] in Hi.
    destruct (IH i ltac:(lia)) as [? ?]. case_decide; lia.
Qed.

Section FillingMore.

Variable random : nat -> Random01.

Lemma fill_cells_lookup (items : list (option Z)) :
  forall (d p : nat),
    fill_cells random d items !! p
    = (fun c => match c with
                | Some k => k
                | None => findIndex (rval (random (d + p)))
                end) <$> items !! p.
Proof.
  induction items as [|c items IH]; intros d p; [reflexivity|].
  destruct p as [|p]; cbn [fill_cells].
  - rewrite Nat.add_0_r. reflexivity.
  - transitivity (fill_cells random (S d) items !! p); [reflexivity|].
    rewrite (IH (S d) p).
    replace (S d + p)%nat with (d + S p)%nat by lia. reflexivity.
Qed.

(** X9. With [fails] at most 3, [fillItems] returns an array as long as
    the one it is given, in which every cell that held an item holds the
    same item and every empty cell holds the kind found for its own draw:
    the draw of the cell at position [p] is the [p]-th from the current
    one, a draw being made for the filled cells too. The service is left
    as it was, and as many draws are used as there are cells. *)
Theorem fillItems_keeps_items (w : World) (items : list (option Z)) :
  fails (service w) <= 3 ->
  exists show,
    fillItems random w items = Returned (show, add_draws (length items) w) /\
    length show = length items /\
    (forall p k, items !! p = Some (Some k) -> show !! p = Some k) /\
    (forall p, items !! p = Some None ->
       show !! p = Some (findIndex (rval (random (draws w + p))))).
Proof.
  intros Hf. unfold fillItems. destruct (Z.ltb_spec 3 (fails (service w))); [lia|].
  eexists. split; [reflexivity|]. split; [|split].
  - clear. generalize (draws w). induction items as [|c items IH]; intros d; [reflexivity|].
    cbn [fill_cells length]. rewrite IH. reflexivity.
  - intros p k Hp. rewrite fill_cells_lookup, Hp. reflexivity.
  - intros p Hp. rewrite fill_cells_lookup, Hp. reflexivity.
Qed.

Lemma showcase_writes_holding (type : Z) (amount : nat) :
  forall (d : nat) (items : list (option Z)),
    length items = 30%nat ->
    length (showcase_writes random type amount d items) = 30%nat /\
    (holding type items <= holding type (showcase_writes random type amount d items)
     <= holding type items + amount)%nat /\
    (forall p, showcase_writes random type amount d items !! p = items !! p
               \/ showcase_writes random type amount d items !! p = Some (Some type)).
Proof.
  induction amount as [|amount IH]; intros d items Hlen.
  - cbn [showcase_writes]. split; [exact Hlen|]. split; [lia|]. intros p. left. reflexivity.
  - cbn [showcase_writes].
    pose proof (Math_round_random (random d) 29) as Hpos.
    change (inject_Z 29) with 29%Q in Hpos.
    set (pos := Z.to_nat (Math_round (rval (random d) * 29))) in *.
    assert (Hlt : (pos < length items)%nat) by lia.
    rewrite (array_set_lt pos) by exact Hlt.
    destruct (IH (S d) (<[ pos := Some type ]> items)) as (Hlen' & Hcount & Hcells);
      [rewrite length_insert; exact Hlen|].
    destruct (holding_insert type pos items Hlt) as [Hins _].
    split; [exact Hlen'|]. split; [lia|].
    intros p. destruct (Hcells p) as [Hp|Hp]; [|right; exact Hp].
    rewrite Hp. destruct (decide (pos = p)) as [<-|Hne].
    + right. apply list_lookup_insert_eq. exact Hlt.
    + left. apply list_lookup_insert_ne. exact Hne.
Qed.

(** X10. The showcase placement on a 30-cell board writes one of the
    types of [showcaseCombinations] on at least one cell and on at most
    as many further cells as the pair asks for; positions may repeat, so
    fewer cells than asked for may hold the type. No other cell is
    changed, and the board keeps its 30 cells. *)
Theorem showcase_writes_count (type : Z) (amount d : nat) (items : list (option Z)) :
  length items = 30%nat -> (1 <= amount)%nat ->
  length (showcase_writes random type amount d items) = 30%nat /\
  (1 <= holding type (showcase_writes random type amount d items))%nat /\
  (holding type (showcase_writes random type amount d items)
   <= holding type items + amount)%nat /\
  (forall p, showcase_writes random type amount d items !! p = items !! p
             \/ showcase_writes random type amount d items !! p = Some (Some type)).
Proof.
  intros Hlen Ham. destruct (showcase_writes_holding type amount d items Hlen)
    as (Hlen' & Hcount & Hcells).
  split; [exact Hlen'|]. split; [|split; [lia|exact Hcells]].
  destruct amount as [|amount]; [lia|]. cbn [showcase_writes].
  pose proof (Math_round_random (random d) 29) as Hpos.
  change (inject_Z 29) with 29%Q in Hpos.
  set (pos := Z.to_nat (Math_round (rval (random d) * 29))) in *.
  assert (Hlt : (pos < length items)%nat) by lia.
  rewrite (array_set_lt pos) by exact Hlt.
  destruct (showcase_writes_holding type amount (S d) (<[ pos := Some type ]> items))
    as (_ & Hmono & _); [rewrite length_insert; exact Hlen|].
  destruct (holding_insert type pos items Hlt) as [_ Hone]. lia.
Qed.

End FillingMore.

Lemma fillItems_keeps_items_witness :
  exists show,
    fillItems (source_of_kinds six_of_five) (new_GameService 100)
      (replicate 29 None ++ [Some 3])
    = Returned (show, add_draws (length (replicate 29 (@None Z) ++ [Some 3]))
                        (new_GameService 100)) /\
    length show = length (replicate 29 (@None Z) ++ [Some 3]) /\
    (forall p k, (replicate 29 None ++ [Some 3]) !! p = Some (Some k) -> show !! p = Some k) /\
    (forall p, (replicate 29 (@None Z) ++ [Some 3]) !! p = Some None ->
       show !! p = Some (findIndex (rval (source_of_kinds six_of_five
                                            (draws (new_GameService 100) + p))))).
Proof.
  apply (fillItems_keeps_items (source_of_kinds six_of_five) (new_GameService 100)
           (replicate 29 None ++ [Some 3])).
  cbn. lia.
Defined.

Lemma showcase_writes_count_witness :
  length (showcase_writes (always (draw_of_kind 6)) 1 8 0 (replicate 30 None)) = 30%nat /\
  (1 <= holding 1 (showcase_writes (always (draw_of_kind 6)) 1 8 0 (replicate 30 None)))%nat /\
  (holding 1 (showcase_writes (always (draw_of_kind 6)) 1 8 0 (replicate 30 None))
   <= holding 1 (replicate 30 None) + 8)%nat /\
  (forall p, showcase_writes (always (draw_of_kind 6)) 1 8 0 (replicate 30 None) !! p
             = replicate 30 None !! p
             \/ showcase_writes (always (draw_of_kind 6)) 1 8 0 (replicate 30 None) !! p
                = Some (Some 1)).
Proof.
  apply (showcase_writes_count (always (draw_of_kind 6)) 1 8 0 (replicate 30 None));
    [reflexivity|lia].
Defined.

(** ** The rounds of a wager, beyond the claims *)

Lemma array_set_cells (P : option Z -> Prop) (i : nat) (v : option Z)
    (l : list (option Z)) :
  P None -> P v -> Forall P l -> Forall P (array_set i v l).
Proof.
  intros HN Hv Hl. unfold array_set. destruct (i <? length l)%nat.
  - apply Forall_insert; assumption.
  - apply Forall_app. split; [exact Hl|]. apply Forall_app. split.
    + apply Forall_replicate. exact HN.
    + constructor; [exact Hv|constructor].
Qed.

(** A step of gravity holds only items the board held before it. *)
Lemma settle_cells (P : Z -> Prop) (lo i : nat) (st : gmap nat nat * list (option Z)) :
  Forall (fun c => from_option P True c) st.2 ->
  Forall (fun c => from_option P True c) (settle lo i st).2.
Proof.
  intros Hall. destruct st as [move last]. unfold settle. cbn [snd] in *.
  destruct (is_null _); [|exact Hall].
  destruct (search_up _ _ _) as [[j v]|] eqn:Hs; [|exact Hall].
  apply search_up_found in Hs as [_ Hj]. cbn [snd].
  assert (Hv : P v).
  { rewrite Forall_forall in Hall. apply (Hall (Some v)).
    eapply list_elem_of_lookup_2. exact Hj. }
  apply array_set_cells; [exact I|exact I|].
  apply array_set_cells; [exact I|exact Hv|exact Hall].
Qed.

Lemma moveItems_cells (P : Z -> Prop) (show : list Z) (blow : list nat) :
  Forall P show -> Forall (fun c => from_option P True c) (moveItems show blow).2.
Proof.
  intros Hall. unfold moveItems, settle_column. cbn [seq foldl Nat.sub].
  repeat apply settle_cells. cbn [snd]. unfold clear.
  apply Forall_lookup. intros p c. rewrite list_lookup_imap.
  destruct (show !! p) as [v|] eqn:Hv; [|discriminate]. cbn.
  case_bool_decide; intros [= <-]; [exact I|].
  rewrite Forall_lookup in Hall. apply (Hall p v Hv).
Qed.

(** Gravity on a fully filled board leaves a board. *)
Lemma moveItems_board (show : list Z) (blow : list nat) :
  filled_board show -> board (moveItems show blow).2.
Proof.
  intros [Hlen Hall]. split; [|apply moveItems_cells; exact Hall].
  destruct (moveItems_gravity_inv show blow Hlen) as (Hl & _). rewrite Hl.
  unfold clear. rewrite length_imap. exact Hlen.
Qed.

Section RoundsMore.

Variable random : nat -> Random01.
Variable sort : forall A : Type, (A -> A -> Z) -> list A -> list A.

(** The fields of a round, from the board it shows. *)
Lemma round_fields (idle : bool) (bid0 : Z) (w w' : World) (l l' : Locals) (r : RoundInfo) :
  round random sort idle bid0 w l = Returned (r, w', l') ->
  bid r = bid0 /\
  findCombinations (groupItems (show r)) = Some (math r) /\
  blow r = blowItems (show r) (math r) /\
  moveItems (show r) (blow r) = (move r, last r) /\
  reward (info r) = calculateReward bid0 (math r) /\
  profit (info r) = l_profit l + reward (info r) /\
  info_balance (info r) = l_balance l + reward (info r) /\
  l' = mkLocals (last r) (profit (info r)) (info_balance (info r)).
Proof.
  unfold round.
  destruct (if idle then _ else _) as [[show1 w1]| |]; try discriminate.
  cbn [mbind result_bind].
  destruct (findCombinations _) as [math1|] eqn:Hmath; [|discriminate].
  cbn [required mbind result_bind].
  destruct (moveItems _ _) as [move1 last1] eqn:Hmove.
  intros [= <- <- <-]. cbn [bid show math blow move last info reward profit info_balance].
  split; [reflexivity|]. split; [exact Hmath|]. split; [reflexivity|].
  split; [exact Hmove|]. repeat (split; [reflexivity|]). reflexivity.
Qed.

Lemma fillItems_filled (w : World) (items : list (option Z)) :
  board items ->
  exists shown w', fillItems random w items = Returned (shown, w') /\ filled_board shown.
Proof.
  intros Hb. unfold fillItems. destruct (3 <? fails (service w)).
  - pose proof (Math_round_random (random (draws (set_fails 0 w)))
                  (Z.of_nat (length showcaseCombinations) - 1)) as Hpick.
    set (pick := Math_round _) in *.
    change (Z.of_nat (length showcaseCombinations) - 1) with 3 in Hpick.
    assert (Hin : pick ∈ range 0 4) by (apply range_elem; lia).
    assert (Hcomb : exists type amount,
              showcaseCombinations !! Z.to_nat pick = Some (type, amount) /\ kind type).
    { revert Hin. generalize pick. apply Forall_forall.
      unfold kind. repeat constructor; do 2 eexists; (split; [reflexivity|lia]). }
    destruct Hcomb as (type & amount & Hlook & Hk).
    rewrite Hlook. cbn [required mbind result_bind].
    pose proof (showcase_writes_board random type amount
                  (S (draws (set_fails 0 w))) items Hk Hb) as [Hlen Hall].
    do 2 eexists. split; [reflexivity|].
    destruct (fill_cells_filled random (draws (add_draws (S amount) (set_fails 0 w))) _ Hall)
      as [Hlen' Hkinds].
    split; [rewrite Hlen'; exact Hlen|exact Hkinds].
  - do 2 eexists. split; [reflexivity|]. destruct Hb as [Hlen Hall].
    destruct (fill_cells_filled random (draws w) items Hall) as [Hlen' Hkinds].
    split; [rewrite Hlen'; exact Hlen|exact Hkinds].
Qed.

Hypothesis sort_perm : forall A cmp l, sort A cmp l ≡ₚ l.

Lemma fakeItems_filled (w : World) : filled_board (fakeItems random sort w).1.
Proof.
  pose proof (fakeItems_perm random sort sort_perm w) as Hp. split.
  - rewrite Hp. reflexivity.
  - rewrite Hp. unfold kind. vm_compute. repeat constructor; discriminate.
Qed.

(** A round returns, on a fully filled board, and leaves a board. *)
Lemma round_returns (idle : bool) (bid0 : Z) (w : World) (l : Locals) :
  (idle = false -> board (l_items l)) ->
  exists r w' l', round random sort idle bid0 w l = Returned (r, w', l') /\
    filled_board (show r) /\ board (last r) /\ l_items l' = last r.
Proof.
  intros Hb. unfold round.
  assert (Hshow : exists shown w1,
            (if idle then Returned (fakeItems random sort (set_index (index (service w) + 1) w))
             else fillItems random (set_index (index (service w) + 1) w) (l_items l))
            = Returned (shown, w1) /\ filled_board shown).
  { destruct idle.
    - pose proof (fakeItems_filled (set_index (index (service w) + 1) w)) as Hf.
      destruct (fakeItems random sort _) as [shown w1]. eauto.
    - apply fillItems_filled, Hb. reflexivity. }
  destruct Hshow as (shown & w1 & -> & Hfilled). cbn [mbind result_bind].
  destruct (findCombinations_groupItems shown (proj2 Hfilled)) as (math1 & -> & _).
  cbn [required mbind result_bind].
  pose proof (moveItems_board shown (blowItems shown math1) Hfilled) as Hboard.
  destruct (moveItems shown _) as [move1 last1].
  do 3 eexists. split; [reflexivity|]. cbn. tauto.
Qed.

Lemma rounds_loop_safe (fuel : nat) (idle : bool) (bid0 : Z) :
  forall (w : World) (l : Locals),
    (idle = false -> board (l_items l)) ->
    rounds_loop random sort fuel idle bid0 w l <> TypeError /\
    forall rounds w' l',
      rounds_loop random sort fuel idle bid0 w l = Returned (rounds, w', l') ->
      Forall (fun r => filled_board (show r) /\ board (last r)) rounds.
Proof.
  induction fuel as [|fuel IH]; intros w l Hb; [split; discriminate|].
  cbn [rounds_loop].
  destruct (round_returns idle bid0 w l Hb) as (r & w1 & l1 & -> & Hf & Hl & Hitems).
  cbn [mbind result_bind]. destruct (0 <? reward (info r)).
  - destruct (IH w1 l1) as [Hne Hall]; [intros _; rewrite Hitems; exact Hl|].
    destruct (rounds_loop random sort fuel idle bid0 w1 l1) as [[[rest w2] l2]| |];
      cbn [mbind result_bind]; [|congruence|split; discriminate].
    split; [discriminate|]. intros rounds w' l' [= <- <- <-].
    constructor; [tauto|]. apply (Hall rest w2 l2). reflexivity.
  - split; [discriminate|]. intros rounds w' l' [= <- <- <-].
    constructor; [tauto|constructor].
Qed.

(** X11. [spin] never throws: every board it shows is fully filled with
    kinds of 0 to 9, so the rewards of every item it groups are defined,
    and every board it hands on has 30 cells, each empty or a kind. *)
Theorem spin_never_throws (fuel : nat) (bid0 : Z) (w : World) :
  spin random sort fuel bid0 w <> TypeError /\
  forall rounds w',
    spin random sort fuel bid0 w = Returned (rounds, w') ->
    Forall (fun r => filled_board (show r) /\ board (last r)) rounds.
Proof.
  unfold spin.
  destruct (rounds_loop_safe fuel ((bid0 <=? 0) || (balance (service w) <? bid0)) bid0 w
              (mkLocals (replicate 30 None) 0 (balance (service w) - bid0)))
    as [Hne Hall].
  { intros _. split; [reflexivity|]. cbn [l_items]. apply Forall_replicate. exact I. }
  destruct (rounds_loop _ _ _ _ _ _ _) as [[[rounds1 w1] l1]| |];
    cbn [mbind result_bind]; [|congruence|split; discriminate].
  split; [discriminate|]. intros rounds w' [= <- <-].
  apply (Hall rounds1 w1 l1). reflexivity.
Qed.

End RoundsMore.

Lemma spin_never_throws_witness :
  spin (source_of_kinds win_then_lose) insertion_sort 5 10 (new_GameService 100)
  <> TypeError /\
  forall rounds w',
    spin (source_of_kinds win_then_lose) insertion_sort 5 10 (new_GameService 100)
    = Returned (rounds, w') ->
    Forall (fun r => filled_board (show r) /\ board (last r)) rounds.
Proof.
  apply (spin_never_throws (source_of_kinds win_then_lose) insertion_sort
           insertion_sort_perm 5 10 (new_GameService 100)).
Defined.

Lemma multipliers_nonneg (math : gmap Z Z) :
  map_Forall (fun _ m => 1 <= m) math -> 0 <= multipliers math.
Proof.
  induction math as [|k m math Hk IH] using map_ind; intros Hall.
  { unfold multipliers. rewrite map_to_list_empty. reflexivity. }
  rewrite multipliers_insert by exact Hk.
  apply map_Forall_insert in Hall as [Hm Hall]; [|exact Hk].
  specialize (IH Hall). lia.
Qed.

Lemma multipliers_pos (math : gmap Z Z) :
  map_Forall (fun _ m => 1 <= m) math -> math <> ∅ -> 1 <= multipliers math.
Proof.
  induction math as [|k m math Hk IH] using map_ind; intros Hall Hne; [congruence|].
  rewrite multipliers_insert by exact Hk.
  apply map_Forall_insert in Hall as [Hm Hall]; [|exact Hk].
  pose proof (multipliers_nonneg math Hall). lia.
Qed.

(** The reward of the groups matched on a board of kinds is the bid times
    a sum that is 0 when nothing matched and at least 1 otherwise. *)
Lemma reward_of_matches (bid0 : Z) (shown : list Z) (math0 : gmap Z Z) :
  Forall kind shown -> findCombinations (groupItems shown) = Some math0 ->
  (math0 = ∅ -> calculateReward bid0 math0 = 0) /\
  (math0 <> ∅ -> exists s, 1 <= s /\ calculateReward bid0 math0 = bid0 * s).
Proof.
  intros Hall Hmath. split.
  - intros ->. reflexivity.
  - intros Hne. exists (multipliers math0).
    split; [|apply calculateReward_multipliers].
    apply multipliers_pos; [|exact Hne].
    destruct (findCombinations_groupItems shown Hall) as (math' & Hmath' & Hlook).
    assert (math' = math0) by congruence. subst math'.
    intros k m Hk. rewrite Hlook in Hk. case_decide as H0; [discriminate|].
    assert (Hkind : kind k).
    { rewrite Forall_forall in Hall. apply Hall, tally_pos_elem.
      pose proof (tally_nonneg k shown). lia. }
    pose proof (tally_nonneg k shown).
    apply (credited_is_Some k (tally k shown) Hkind ltac:(lia)) in Hk. lia.
Qed.

Lemma blowItems_none (shown : list Z) : blowItems shown ∅ = [].
Proof.
  unfold blowItems. generalize 0%nat.
  induction shown as [|x shown IH]; intros s; [reflexivity|].
  cbn [length seq zip zip_with omap list_omap]. rewrite lookup_empty. cbn. apply IH.
Qed.

(** On a board of kinds nothing is blown only if nothing matched. *)
Lemma blowItems_nil_iff (shown : list Z) (math0 : gmap Z Z) :
  Forall kind shown -> findCombinations (groupItems shown) = Some math0 ->
  blowItems shown math0 = [] -> math0 = ∅.
Proof.
  intros Hall Hmath Hnil. apply map_eq. intros k. rewrite lookup_empty.
  destruct (math0 !! k) as [m|] eqn:Hm; [exfalso|reflexivity].
  destruct (findCombinations_groupItems shown Hall) as (math' & Hmath' & Hlook).
  assert (math' = math0) by congruence. subst math'.
  pose proof Hm as Hm'. rewrite Hlook in Hm'. case_decide as H0; [discriminate|].
  pose proof (tally_nonneg k shown) as Hnn.
  assert (Hkind : kind k).
  { rewrite Forall_forall in Hall. apply Hall, tally_pos_elem. lia. }
  destruct (credited_is_Some k (tally k shown) Hkind ltac:(lia)) as [_ Hpos].
  apply Hpos in Hm'.
  assert (Hin : k ∈ shown) by (apply tally_pos_elem; lia).
  apply list_elem_of_lookup in Hin as [i Hi].
  assert (Hbi : i ∈ blowItems shown math0).
  { unfold blowItems. apply blowItems_from. split; [lia|]. exists k.
    rewrite Nat.sub_0_r. split; [exact Hi|]. rewrite Hm. cbn. unfold truthy.
    destruct (Z.eqb_spec m 0); [lia|reflexivity]. }
  rewrite Hnil in Hbi. inversion Hbi.
Qed.

Lemma moveItems_unblown (shown : list Z) :
  (30 <= length shown)%nat -> moveItems shown [] = (∅, Some <$> shown).
Proof.
  intros Hlen.
  assert (Hclear : clear shown [] = Some <$> shown).
  { unfold clear. apply list_eq. intros i. rewrite list_lookup_imap, list_lookup_fmap.
    destruct (shown !! i) as [v|]; [|reflexivity]. cbn.
    case_bool_decide as Hi; [inversion Hi|reflexivity]. }
  assert (Hfull : forall i, (i < 30)%nat -> is_null ((Some <$> shown) !! i) = false).
  { intros i Hi. rewrite list_lookup_fmap.
    destruct (lookup_lt_is_Some_2 shown i) as [v ->]; [lia|reflexivity]. }
  unfold moveItems. rewrite Hclear. cbn [seq foldl]. unfold settle_column.
  cbn [seq foldl Nat.sub Nat.mul Nat.add].
  repeat (rewrite (settle_full _ _ (∅, Some <$> shown)) by (apply Hfull; lia)).
  reflexivity.
Qed.

Lemma rewards_app (l1 l2 : list RoundInfo) : rewards (l1 ++ l2) = rewards l1 + rewards l2.
Proof.
  unfold rewards. induction l1 as [|r l1 IH]; [reflexivity|].
  cbn [app fmap list_fmap foldr] in *. rewrite IH. lia.
Qed.

Section Wager.

Variable random : nat -> Random01.
Variable sort : forall A : Type, (A -> A -> Z) -> list A -> list A.

(** The loop stops at the first round that does not pay, and its rounds
    carry the running totals. *)
Lemma rounds_loop_ledger (fuel : nat) (idle : bool) (bid0 : Z) :
  forall (w w' : World) (l l' : Locals) (rounds : list RoundInfo),
    rounds_loop random sort fuel idle bid0 w l = Returned (rounds, w', l') ->
    (exists init final, rounds = init ++ [final] /\
       Forall (fun r => 0 < reward (info r)) init /\ reward (info final) <= 0) /\
    Forall (fun r => bid r = bid0) rounds /\
    (forall n r, rounds !! n = Some r ->
       profit (info r) = l_profit l + rewards (take (S n) rounds) /\
       info_balance (info r) = l_balance l + rewards (take (S n) rounds)) /\
    l_balance l' = l_balance l + rewards rounds.
Proof.
  induction fuel as [|fuel IH]; intros w w' l l' rounds; [discriminate|].
  cbn [rounds_loop].
  destruct (round random sort idle bid0 w l) as [[[r w1] l1]| |] eqn:Hround;
    try discriminate.
  apply round_fields in Hround as (Hbid & _ & _ & _ & _ & Hprofit & Hbal & Hl1).
  cbn [mbind result_bind]. destruct (Z.ltb_spec 0 (reward (info r))) as [Hpos|Hpos].
  - destruct (rounds_loop random sort fuel idle bid0 w1 l1) as [[[rest w2] l2]| |] eqn:Hloop;
      try discriminate.
    cbn [mbind result_bind]. intros [= <- <- <-].
    apply IH in Hloop as ((init & final & -> & Hinit & Hfinal) & Hbids & Hsums & Hlast).
    subst l1. cbn [l_profit l_balance] in *.
    split; [|split; [|split]].
    + exists (r :: init), final. split; [reflexivity|]. split; [|exact Hfinal].
      constructor; [exact Hpos|exact Hinit].
    + constructor; [exact Hbid|exact Hbids].
    + intros [|n] r' Hr'.
      * injection Hr' as <-. unfold rewards. cbn [firstn fmap list_fmap foldr]. rewrite ?take_0.
        cbn [fmap list_fmap foldr]. lia.
      * destruct (Hsums n r' Hr') as [Hp Hb].
        change (take (S (S n)) (r :: init ++ [final]))
          with ([r] ++ take (S n) (init ++ [final])).
        rewrite rewards_app. unfold rewards at 1 3. cbn [fmap list_fmap foldr]. lia.
    + change (r :: init ++ [final]) with ([r] ++ (init ++ [final])).
      rewrite rewards_app. unfold rewards at 1. cbn [fmap list_fmap foldr]. lia.
  - intros [= <- <- <-]. subst l1. cbn [l_profit l_balance].
    split; [|split; [|split]].
    + exists [], r. split; [reflexivity|]. split; [constructor|exact Hpos].
    + constructor; [exact Hbid|constructor].
    + intros [|n] r' Hr'; [|discriminate]. injection Hr' as <-.
      unfold rewards. cbn [firstn fmap list_fmap foldr]. rewrite ?take_0.
      cbn [fmap list_fmap foldr]. lia.
    + unfold rewards. cbn [fmap list_fmap foldr]. lia.
Qed.

Lemma spin_shape_of (fuel : nat) (bid0 : Z) (w w' : World) (rounds : list RoundInfo) :
  spin random sort fuel bid0 w = Returned (rounds, w') ->
  exists init final, rounds = init ++ [final] /\
    Forall (fun r => 0 < reward (info r)) init /\ reward (info final) <= 0.
Proof.
  unfold spin.
  destruct (rounds_loop _ _ _ _ _ _ _) as [[[rounds1 w1] l1]| |] eqn:Hloop;
    try discriminate.
  cbn [mbind result_bind]. intros [= <- _].
  apply rounds_loop_ledger in Hloop as (Hshape & _). exact Hshape.
Qed.

(** X12. The rounds of a wager that returns: there is at least one, every
    round but the last has a positive reward, the last has none, and each
    carries the bid of the wager. *)
Theorem spin_rounds_shape (fuel : nat) (bid0 : Z) (w w' : World) (rounds : list RoundInfo) :
  spin random sort fuel bid0 w = Returned (rounds, w') ->
  (exists init final, rounds = init ++ [final] /\
     Forall (fun r => 0 < reward (info r)) init /\ reward (info final) <= 0) /\
  Forall (fun r => bid r = bid0) rounds.
Proof.
  unfold spin.
  destruct (rounds_loop _ _ _ _ _ _ _) as [[[rounds1 w1] l1]| |] eqn:Hloop;
    try discriminate.
  cbn [mbind result_bind]. intros [= <- _].
  apply rounds_loop_ledger in Hloop as (Hshape & Hbids & _). tauto.
Qed.

(** The accounts of the last round of a wager, and of the service
    after it. *)
Lemma spin_final_accounts (fuel : nat) (bid0 : Z) (w w' : World)
    (init : list RoundInfo) (final : RoundInfo) :
  spin random sort fuel bid0 w = Returned (init ++ [final], w') ->
  profit (info final) = rewards (init ++ [final]) /\
  info_balance (info final) = balance (service w) - bid0 + rewards (init ++ [final]) /\
  balance (service w')
  = (if idle_bid bid0 w then balance (service w)
     else balance (service w) - bid0 + rewards (init ++ [final])).
Proof.
  unfold spin, idle_bid.
  destruct (rounds_loop _ _ _ _ _ _ _) as [[[rounds1 w1] l1]| |] eqn:Hloop;
    try discriminate.
  cbn [mbind result_bind]. intros [= -> <-].
  pose proof (rounds_loop_inv _ _ _ _ _ _ _ _ _ _ Hloop) as (_ & _ & Hbal & _).
  apply rounds_loop_ledger in Hloop as (_ & _ & Hsums & Hlast).
  cbn [l_profit l_balance] in *.
  destruct (Hsums (length init) final) as [Hp Hb].
  { rewrite lookup_app_r by lia. rewrite Nat.sub_diag. reflexivity. }
  rewrite take_ge in Hp, Hb by (rewrite length_app; cbn [length]; lia).
  split; [lia|]. split; [lia|].
  destruct ((bid0 <=? 0) || (balance (service w) <? bid0)),
    (length (init ++ [final]) =? 1)%nat;
    cbn [negb set_balance set_fails service balance]; lia.
Qed.

(** X13. The accounts of a wager that returns: the profit reported by a
    round is the sum of the rewards up to it, and the balance it reports is
    the balance of the service before the wager, less the bid, plus that
    profit, for an idle wager too. The service ends with the balance the
    last round reports when the wager is not idle, and with the balance it
    had when the wager is idle: after an idle wager with a positive bid the
    rounds report a balance that is the bid below that of the service. *)
Theorem spin_ledger (fuel : nat) (bid0 : Z) (w w' : World) (rounds : list RoundInfo) :
  spin random sort fuel bid0 w = Returned (rounds, w') ->
  (forall n r, rounds !! n = Some r ->
     profit (info r) = rewards (take (S n) rounds) /\
     info_balance (info r) = balance (service w) - bid0 + profit (info r)) /\
  balance (service w')
  = (if idle_bid bid0 w then balance (service w)
     else balance (service w) - bid0 + rewards rounds).
Proof.
  unfold spin, idle_bid.
  destruct (rounds_loop _ _ _ _ _ _ _) as [[[rounds1 w1] l1]| |] eqn:Hloop;
    try discriminate.
  cbn [mbind result_bind]. intros [= <- <-].
  pose proof (rounds_loop_inv _ _ _ _ _ _ _ _ _ _ Hloop) as (_ & _ & Hbal & _).
  apply rounds_loop_ledger in Hloop as (_ & _ & Hsums & Hlast).
  cbn [l_profit l_balance] in *. split.
  - intros n r Hr. destruct (Hsums n r Hr) as [Hp Hb]. lia.
  - destruct ((bid0 <=? 0) || (balance (service w) <? bid0)), (length rounds1 =? 1)%nat;
      cbn [negb set_balance set_fails service balance]; lia.
Qed.

End Wager.

Lemma spin_rounds_shape_witness :
  exists rounds w',
    spin (source_of_kinds win_then_lose) insertion_sort 5 10 (new_GameService 100)
    = Returned (rounds, w') /\
    (exists init final, rounds = init ++ [final] /\
       Forall (fun r => 0 < reward (info r)) init /\ reward (info final) <= 0) /\
    Forall (fun r => bid r = 10) rounds.
Proof.
  destruct (spin (source_of_kinds win_then_lose) insertion_sort 5 10 (new_GameService 100))
    as [[rounds w']| |] eqn:Hspin; [|vm_compute in Hspin; discriminate..].
  exists rounds, w'. split; [reflexivity|].
  apply (spin_rounds_shape (source_of_kinds win_then_lose) insertion_sort 5 10
           (new_GameService 100) w' rounds Hspin).
Defined.

Lemma spin_ledger_witness :
  exists rounds w',
    spin (source_of_kinds win_then_lose) insertion_sort 5 10 (new_GameService 100)
    = Returned (rounds, w') /\
    balance (service w') = 290 /\
    (forall n r, rounds !! n = Some r ->
       profit (info r) = rewards (take (S n) rounds) /\
       info_balance (info r)
       = balance (service (new_GameService 100)) - 10 + profit (info r)) /\
    balance (service w')
    = (if idle_bid 10 (new_GameService 100) then balance (service (new_GameService 100))
       else balance (service (new_GameService 100)) - 10 + rewards rounds).
Proof.
  destruct (spin (source_of_kinds win_then_lose) insertion_sort 5 10 (new_GameService 100))
    as [[rounds w']| |] eqn:Hspin; [|vm_compute in Hspin; discriminate..].
  exists rounds, w'. split; [reflexivity|]. split.
  - vm_compute in Hspin. injection Hspin as _ <-. reflexivity.
  - apply (spin_ledger (source_of_kinds win_then_lose) insertion_sort 5 10
             (new_GameService 100) w' rounds Hspin).
Defined.

Section Cascades.

Variable random : nat -> Random01.
Variable sort : forall A : Type, (A -> A -> Z) -> list A -> list A.

Lemma fillItems_keeps (w w' : World) (items : list (option Z)) (shown : list Z) :
  fails (service w) <= 3 ->
  fillItems random w items = Returned (shown, w') ->
  keeps items shown /\ fails (service w') = fails (service w).
Proof.
  intros Hf. unfold fillItems. destruct (Z.ltb_spec 3 (fails (service w))); [lia|].
  intros [= <- <-]. split; [|reflexivity]. split.
  - generalize (draws w). induction items as [|c items IH]; intros d; [reflexivity|].
    cbn [fill_cells length]. rewrite IH. reflexivity.
  - intros p v Hp. rewrite fill_cells_lookup, Hp. reflexivity.
Qed.

(** From a service with [fails] at most 3, every round of the loop shows
    the items the round before it left, where it left them. *)
Lemma rounds_loop_chain (fuel : nat) (bid0 : Z) :
  forall (w w' : World) (l l' : Locals) (rounds : list RoundInfo),
    fails (service w) <= 3 ->
    rounds_loop random sort fuel false bid0 w l = Returned (rounds, w', l') ->
    (exists r rest, rounds = r :: rest /\ keeps (l_items l) (show r)) /\
    (forall n r r', rounds !! n = Some r -> rounds !! S n = Some r' ->
       keeps (last r) (show r')).
Proof.
  induction fuel as [|fuel IH]; intros w w' l l' rounds Hf; [discriminate|].
  cbn [rounds_loop].
  destruct (round random sort false bid0 w l) as [[[r w1] l1]| |] eqn:Hround;
    try discriminate.
  pose proof (round_inv _ _ _ _ _ _ _ _ _ Hround) as (_ & _ & _ & Hfails & _ & Hfill).
  apply round_fields in Hround as (_ & _ & _ & _ & _ & _ & _ & Hl1).
  specialize (Hfill eq_refl).
  apply fillItems_keeps in Hfill as [Hkeeps _]; [|exact Hf].
  assert (Hf1 : fails (service w1) <= 3).
  { rewrite Hfails. cbn [negb andb]. destruct (3 <? fails (service w)); lia. }
  cbn [mbind result_bind]. destruct (0 <? reward (info r)).
  - destruct (rounds_loop random sort fuel false bid0 w1 l1) as [[[rest w2] l2]| |] eqn:Hloop;
      try discriminate.
    cbn [mbind result_bind]. intros [= <- <- <-].
    apply IH in Hloop as ((r1 & rest1 & -> & Hk1) & Hchain); [|exact Hf1].
    subst l1. cbn [l_items] in Hk1. split; [eauto|].
    intros [|n] ra rb Ha Hb.
    + injection Ha as <-. injection Hb as <-. exact Hk1.
    + apply (Hchain n ra rb Ha Hb).
  - intros [= <- <- <-]. split; [eauto|]. intros [|n] ra rb Ha Hb; discriminate.
Qed.

Lemma spin_chain (fuel : nat) (bid0 : Z) (w w' : World)
    (rounds : list RoundInfo) (n : nat) (r r' : RoundInfo) :
  idle_bid bid0 w = false ->
  spin random sort fuel bid0 w = Returned (rounds, w') ->
  rounds !! n = Some r -> rounds !! S n = Some r' ->
  keeps (last r) (show r').
Proof.
  unfold spin, idle_bid. intros -> Hspin.
  destruct (rounds_loop _ _ _ _ _ _ _) as [[[rounds1 w1] l1]| |] eqn:Hloop;
    try discriminate.
  cbn [mbind result_bind] in Hspin. injection Hspin as <- _.
  destruct fuel as [|fuel]; [discriminate|]. cbn [rounds_loop] in Hloop.
  destruct (round random sort false bid0 w _) as [[[r0 w0] l0]| |] eqn:Hround;
    try discriminate.
  pose proof (round_inv _ _ _ _ _ _ _ _ _ Hround) as (_ & _ & _ & Hfails & _).
  apply round_fields in Hround as (_ & _ & _ & _ & _ & _ & _ & Hl0).
  assert (Hf0 : fails (service w0) <= 3).
  { rewrite Hfails. cbn [negb andb]. destruct (Z.ltb_spec 3 (fails (service w))); lia. }
  cbn [mbind result_bind] in Hloop. destruct (0 <? reward (info r0)).
  - destruct (rounds_loop random sort fuel false bid0 w0 l0) as [[[rest w2] l2]| |] eqn:Hrest;
      try discriminate.
    cbn [mbind result_bind] in Hloop. injection Hloop as <- _ _.
    apply rounds_loop_chain in Hrest as ((r1 & rest1 & -> & Hk1) & Hchain); [|exact Hf0].
    subst l0. cbn [l_items] in Hk1.
    destruct n as [|n]; intros Ha Hb.
    + injection Ha as <-. injection Hb as <-. exact Hk1.
    + apply (Hchain n r r' Ha Hb).
  - injection Hloop as <- _ _. destruct n; discriminate.
Qed.

(** X14. In a wager that is not idle, each round after the first shows
    the board the round before it left: 30 cells, with every item that
    survived where gravity put it; only the empty cells are filled anew. *)
Theorem spin_cascade_keeps (fuel : nat) (bid0 : Z) (w w' : World)
    (rounds : list RoundInfo) (n : nat) (r r' : RoundInfo) :
  idle_bid bid0 w = false ->
  spin random sort fuel bid0 w = Returned (rounds, w') ->
  rounds !! n = Some r -> rounds !! S n = Some r' ->
  length (show r') = length (last r) /\
  forall p v, last r !! p = Some (Some v) -> show r' !! p = Some v.
Proof.
  intros Hidle Hspin Hr Hr'.
  destruct (spin_chain fuel bid0 w w' rounds n r r' Hidle Hspin Hr Hr') as [Hlen Hkeeps].
  split; [exact Hlen|]. intros p v Hp. apply Hkeeps, Hp.
Qed.

Hypothesis sort_perm : forall A cmp l, sort A cmp l ≡ₚ l.

(** A round that does not pay blows nothing and moves nothing; a round
    that pays blows some cell. *)
Lemma round_blows (idle : bool) (bid0 : Z) (w w' : World) (l l' : Locals) (r : RoundInfo) :
  (idle = false -> board (l_items l) /\ 0 < bid0) ->
  round random sort idle bid0 w l = Returned (r, w', l') ->
  (reward (info r) <= 0 ->
   math r = ∅ /\ blow r = [] /\ move r = ∅ /\ last r = Some <$> show r) /\
  (0 < reward (info r) -> blow r <> []).
Proof.
  intros Hpre Hround.
  destruct (round_returns random sort sort_perm idle bid0 w l) as
    (r1 & w1 & l1 & Hround1 & Hfilled & _); [intros Hi; apply Hpre, Hi|].
  assert (r1 = r) by congruence. subst r1. clear Hround1.
  pose proof (round_fields _ _ _ _ _ _ _ _ _ Hround)
    as (_ & Hmath & Hblow & Hmove & Hreward & _).
  destruct (reward_of_matches bid0 (show r) (math r) (proj2 Hfilled) Hmath) as [Hzero Hsome].
  assert (Hempty : math r = ∅ ->
            math r = ∅ /\ blow r = [] /\ move r = ∅ /\ last r = Some <$> show r).
  { intros He. rewrite He in Hblow. rewrite blowItems_none in Hblow.
    rewrite Hblow, moveItems_unblown in Hmove by (rewrite (proj1 Hfilled); lia).
    injection Hmove as <- <-. tauto. }
  assert (Hcase : math r = ∅ \/ math r <> ∅).
  { destruct (decide (math r = ∅)); tauto. }
  destruct idle.
  - destruct (round_idle random sort sort_perm bid0 w l) as (r2 & Hr2 & _ & Hm2 & _ & Hi2).
    assert (r2 = r) by congruence. subst r2.
    split; [intros _; apply Hempty, Hm2|]. rewrite Hi2. cbn. lia.
  - destruct (Hpre eq_refl) as [_ Hbid]. split.
    + intros Hle. destruct Hcase as [He|Hne]; [apply Hempty, He|].
      destruct (Hsome Hne) as (s & Hs & Heq). nia.
    + intros Hpos Hnil. destruct Hcase as [He|Hne].
      * rewrite Hreward, (Hzero He) in Hpos. lia.
      * apply Hne. rewrite Hblow in Hnil.
        apply (blowItems_nil_iff (show r) (math r) (proj2 Hfilled) Hmath). exact Hnil.
Qed.

Lemma rounds_loop_blows (fuel : nat) (idle : bool) (bid0 : Z) :
  forall (w w' : World) (l l' : Locals) (rounds : list RoundInfo),
    (idle = false -> board (l_items l) /\ 0 < bid0) ->
    rounds_loop random sort fuel idle bid0 w l = Returned (rounds, w', l') ->
    Forall (fun r =>
              (reward (info r) <= 0 ->
               math r = ∅ /\ blow r = [] /\ move r = ∅ /\ last r = Some <$> show r) /\
              (0 < reward (info r) -> blow r <> [])) rounds.
Proof.
  induction fuel as [|fuel IH]; intros w w' l l' rounds Hpre; [discriminate|].
  cbn [rounds_loop].
  destruct (round random sort idle bid0 w l) as [[[r w1] l1]| |] eqn:Hround;
    try discriminate.
  pose proof (round_blows idle bid0 w w1 l l1 r Hpre Hround) as Hr.
  destruct (round_returns random sort sort_perm idle bid0 w l) as
    (r1 & w1' & l1' & Hround1 & _ & Hboard & Hitems); [intros Hi; apply Hpre, Hi|].
  assert (Heq : (r1, w1', l1') = (r, w1, l1)) by congruence.
  injection Heq as -> -> ->.
  cbn [mbind result_bind]. destruct (0 <? reward (info r)).
  - destruct (rounds_loop random sort fuel idle bid0 w1 l1) as [[[rest w2] l2]| |] eqn:Hloop;
      try discriminate.
    cbn [mbind result_bind]. intros [= <- <- <-].
    constructor; [exact Hr|]. apply (IH w1 w2 l1 l2 rest); [|exact Hloop].
    intros Hi. rewrite Hitems. split; [exact Hboard|apply Hpre, Hi].
  - intros [= <- <- <-]. constructor; [exact Hr|constructor].
Qed.

(** X15. The last round of every wager that returns shows a board on
    which nothing matches: it blows and moves nothing, and the board it
    leaves is the board it shows, without an empty cell. In every round
    before it some cell is blown. *)
Theorem spin_final_board (fuel : nat) (bid0 : Z) (w w' : World) (rounds : list RoundInfo) :
  spin random sort fuel bid0 w = Returned (rounds, w') ->
  exists init final,
    rounds = init ++ [final] /\
    math final = ∅ /\ blow final = [] /\ move final = ∅ /\
    last final = Some <$> show final /\
    Forall (fun r => blow r <> []) init.
Proof.
  intros Hspin.
  destruct (spin_shape_of random sort fuel bid0 w w' rounds Hspin)
    as (init & final & -> & Hinit & Hfinal).
  unfold spin in Hspin.
  destruct (rounds_loop _ _ _ _ _ _ _) as [[[rounds1 w1] l1]| |] eqn:Hloop;
    try discriminate.
  cbn [mbind result_bind] in Hspin. injection Hspin as -> _.
  apply rounds_loop_blows in Hloop.
  - apply Forall_app in Hloop as [Hi Hf]. apply Forall_cons in Hf as [[Hf _] _].
    destruct (Hf Hfinal) as (? & ? & ? & ?).
    exists init, final. repeat (split; [assumption || reflexivity|]).
    rewrite Forall_forall in Hi, Hinit |- *. intros r Hr.
    apply (Hi r Hr), (Hinit r Hr).
  - intros Hidle. split.
    + split; [reflexivity|]. cbn [l_items]. apply Forall_replicate. exact I.
    + apply orb_false_iff in Hidle as [Hle _]. lia.
Qed.

(** X16. [fakeItems] returns a fully filled board with exactly three
    cells of each kind, whatever is drawn and however the sort orders the
    pairs, so that nothing can match on a demo board; it makes 30 draws and
    leaves the service alone. *)
Theorem fakeItems_three_of_each (w : World) :
  filled_board (fakeItems random sort w).1 /\
  (forall k, kind k -> tally k (fakeItems random sort w).1 = 3) /\
  findCombinations (groupItems (fakeItems random sort w).1) = Some ∅ /\
  (fakeItems random sort w).2 = add_draws 30 w.
Proof.
  split; [apply (fakeItems_filled random sort sort_perm)|].
  split; [|split; [apply (fakeItems_no_match random sort sort_perm)|reflexivity]].
  intros k Hk. rewrite (tally_perm k _ _ (fakeItems_perm random sort sort_perm w)).
  assert (Hin : k ∈ range 0 10) by (apply range_elem; unfold kind in Hk; lia).
  revert Hin. generalize k. apply Forall_forall.
  repeat (constructor; [reflexivity|]). constructor.
Qed.

End Cascades.

(** ** The play desk and the rounds *)

Lemma moveItems_columns (shown : list Z) (blown : list nat) :
  within_columns (moveItems shown blown).1.
Proof.
  unfold moveItems. cbn [seq foldl].
  repeat apply settle_column_within_columns.
  intros from to. cbn [fst]. rewrite lookup_empty. discriminate.
Qed.

(** X17. What the play desk tells the item at a position of a 30-cell
    board, from the blown list and the move map of [moveItems]: an item
    that is blown has no [move]; [move] is a number exactly when the move
    map has an entry for the position, and it is then the row, from 1 to
    4 and below the item's own, of the position the entry names, in the
    item's own line. So [line * 5 + move] is where the item goes, and as
    [move] is never 0 the test [else if (move)] lets every moved item
    move. *)
Theorem itemProps_of_moveItems (shown : list Z) (blown : list nat)
    (lastItemsState : list (option Z)) (i : nat) (item : Z) :
  length shown = 30%nat ->
  let p := PlayDesk.itemProps blown (moveItems shown blown).1 lastItemsState i item in
  (PlayDesk.blow p = true -> PlayDesk.move p = None) /\
  (forall to, (moveItems shown blown).1 !! i = Some to ->
     PlayDesk.move p = Some (to mod 5)%nat /\
     (PlayDesk.line p * 5 + to mod 5 = to)%nat /\
     (PlayDesk.row p < to mod 5 <= 4)%nat /\
     moves_after_appear p = true) /\
  ((moveItems shown blown).1 !! i = None ->
   PlayDesk.move p = None /\ moves_after_appear p = false).
Proof.
  intros Hlen p. subst p. unfold moves_after_appear. cbn [PlayDesk.itemProps PlayDesk.blow
    PlayDesk.move PlayDesk.line PlayDesk.row].
  assert (Hmove : forall from to, (moveItems shown blown).1 !! from = Some to ->
            (from < to)%nat /\ (from ∉ blown)).
  { destruct (moveItems_gravity_inv shown blown Hlen) as (_ & Hinv & _).
    intros from to Hft. destruct (Hinv from to Hft) as (_ & Hlt & v & Hv).
    apply clear_lookup in Hv. tauto. }
  pose proof (moveItems_columns shown blown) as Hcols.
  split; [|split].
  - intros Hb. apply bool_decide_eq_true in Hb.
    destruct ((moveItems shown blown).1 !! i) as [to|] eqn:Hto; [|reflexivity].
    destruct (Hmove i to Hto) as (_ & Hnb). tauto.
  - intros to Hto. rewrite Hto. cbn [fmap option_fmap option_map].
    destruct (Hmove i to Hto) as (Hlt & _).
    destruct (Hcols i to Hto) as [Hcol _].
    pose proof (Nat.div_mod_eq i 5). pose proof (Nat.div_mod_eq to 5).
    pose proof (Nat.mod_upper_bound i 5 ltac:(lia)).
    pose proof (Nat.mod_upper_bound to 5 ltac:(lia)).
    assert (Hrow : (i mod 5 < to mod 5)%nat) by lia.
    split; [reflexivity|]. split; [lia|]. split; [lia|].
    destruct (Nat.eqb_spec (to mod 5) 0); [lia|reflexivity].
  - intros ->. split; reflexivity.
Qed.

Lemma itemProps_of_moveItems_witness :
  let p := PlayDesk.itemProps [2; 4]%nat (moveItems seven_of_kind0 [2; 4]%nat).1 [] 1 0 in
  (PlayDesk.blow p = true -> PlayDesk.move p = None) /\
  (forall to, (moveItems seven_of_kind0 [2; 4]%nat).1 !! 1%nat = Some to ->
     PlayDesk.move p = Some (to mod 5)%nat /\
     (PlayDesk.line p * 5 + to mod 5 = to)%nat /\
     (PlayDesk.row p < to mod 5 <= 4)%nat /\
     moves_after_appear p = true) /\
  ((moveItems seven_of_kind0 [2; 4]%nat).1 !! 1%nat = None ->
   PlayDesk.move p = None /\ moves_after_appear p = false).
Proof.
  apply (itemProps_of_moveItems seven_of_kind0 [2; 4]%nat [] 1 0). reflexivity.
Defined.

Lemma sum_perm (l1 l2 : list Z) :
  l1 ≡ₚ l2 -> foldr Z.add 0 l1 = foldr Z.add 0 l2.
Proof. induction 1; cbn [foldr] in *; lia. Qed.

(** X18. The messages the play desk sets when the blown items of a round
    are gone, one for each matched group, carry amounts that add up to the
    reward of the round. *)
Theorem messages_total (bid0 : Z) (math0 : gmap Z Z) :
  length (PlayDesk.messages bid0 math0) = size math0 /\
  foldr Z.add 0 (PlayDesk.messages bid0 math0) = calculateReward bid0 math0.
Proof.
  unfold PlayDesk.messages, PlayDesk.Object_values.
  assert (Hperm : merge_sort PlayDesk.key_le (map_to_list math0)
                  ≡ₚ map_to_list math0) by apply merge_sort_Permutation.
  split.
  - rewrite !length_fmap, Hperm. apply length_map_to_list.
  - rewrite calculateReward_multipliers. unfold multipliers.
    rewrite <- (sum_perm _ _ (fmap_Permutation snd _ _ Hperm)).
    induction (snd <$> merge_sort _ _) as [|v l IH]; cbn [fmap list_fmap foldr] in *; lia.
Qed.

Section Screen.

Variable random : nat -> Random01.
Variable sort : forall A : Type, (A -> A -> Z) -> list A -> list A.
Hypothesis sort_perm : forall A cmp l, sort A cmp l ≡ₚ l.

(** X19. Between two rounds of a wager that is not idle, the play desk
    flags as swapped exactly the cells the earlier round left empty: with
    the items it remembers from the earlier round, [swap] is true of the
    cell at a position of the board if and only if that cell was empty. *)
Theorem swap_marks_refilled (fuel : nat) (bid0 : Z) (w w' : World)
    (rounds : list RoundInfo) (n : nat) (r r' : RoundInfo) (i : nat) (item : Z) :
  idle_bid bid0 w = false ->
  spin random sort fuel bid0 w = Returned (rounds, w') ->
  rounds !! n = Some r -> rounds !! S n = Some r' ->
  show r' !! i = Some item ->
  PlayDesk.swap (PlayDesk.itemProps (blow r') (move r') (last r) i item) = true
  <-> last r !! i = Some None.
Proof.
  intros Hidle Hspin Hr Hr' Hitem. cbn [PlayDesk.itemProps PlayDesk.swap].
  destruct (spin_chain random sort fuel bid0 w w' rounds n r r'
              Hidle Hspin Hr Hr') as [Hlen Hkeeps].
  assert (Hin : (i < length (last r))%nat)
    by (rewrite <- Hlen; apply lookup_lt_Some in Hitem; exact Hitem).
  destruct (lookup_lt_is_Some_2 (last r) i Hin) as [c Hc]. rewrite Hc.
  destruct c as [v|]; cbn [PlayDesk.differs].
  - pose proof (Hkeeps i v Hc) as Hv. assert (v = item) by congruence. subst v.
    rewrite Z.eqb_refl. cbn. split; [discriminate|intros [= ?]].
  - split; reflexivity.
Qed.

Lemma spin_idle_rewards (fuel : nat) (bid0 : Z) (w w' : World) (rounds : list RoundInfo) :
  idle_bid bid0 w = true ->
  spin random sort fuel bid0 w = Returned (rounds, w') -> rewards rounds = 0.
Proof.
  unfold spin, idle_bid. intros ->. destruct fuel as [|fuel]; [discriminate|].
  cbn [rounds_loop].
  destruct (round_idle random sort sort_perm bid0 w
              (mkLocals (replicate 30 None) 0 (balance (service w) - bid0)))
    as (r & -> & _ & _ & _ & Hinfo).
  cbn [mbind result_bind]. rewrite Hinfo. cbn [reward Z.ltb Z.compare mbind result_bind].
  intros [= <- _]. unfold rewards. cbn [fmap list_fmap foldr]. rewrite Hinfo. reflexivity.
Qed.

(** X20. What the screen shows of a wager started with auto-spin and
    turbo off. After [doSpin] the screen is locked on the first round, and
    a click does nothing until, the desk having reported each round done,
    the screen unlocks on the last round with that round's profit and
    balance: the profit is the sum of the rewards, and the balance is that
    of the service after the wager when the wager was not idle, and the
    bid below it when it was idle. *)
Theorem screen_shows_wager (fuel : nat) (bid0 : Z) (s s1 : GameScreen.GameState)
    (w w1 : World) :
  GameScreen.auto s = 0 -> GameScreen.turbo s = false ->
  GameScreen.doSpin random sort fuel bid0 s w = Returned (s1, w1) ->
  GameScreen.locked s1 = true /\ GameScreen.round s1 = 0%nat /\
  GameScreen.balance s1 = balance (service w) - bid0 /\
  GameScreen.onClickSpin random sort fuel s1 w1 = Returned (s1, w1) /\
  exists s2,
    GameScreen.onSpinReady_times random sort (length (GameScreen.rounds s1)) fuel s1 w1
    = Returned (s2, w1) /\
    GameScreen.locked s2 = false /\
    GameScreen.rounds s2 = GameScreen.rounds s1 /\
    GameScreen.profit s2 = rewards (GameScreen.rounds s1) /\
    GameScreen.balance s2
    = (if idle_bid bid0 w then balance (service w1) - bid0 else balance (service w1)).
Proof.
  intros Hauto Hturbo. unfold GameScreen.doSpin.
  destruct (spin random sort fuel bid0 w) as [[rounds w2]| |] eqn:Hspin; try discriminate.
  cbn [mbind result_bind]. intros [= <- <-].
  cbn [GameScreen.locked GameScreen.round GameScreen.balance GameScreen.rounds
       GameScreen.service_balance].
  split; [reflexivity|]. split; [reflexivity|]. split; [reflexivity|].
  split; [reflexivity|].
  destruct (spin_shape_of random sort fuel bid0 w w2 rounds Hspin)
    as (init & final & -> & _ & _).
  destruct (spin_final_accounts random sort fuel bid0 w w2 init final Hspin)
    as (Hp & Hb & Hbal).
  set (rounds := init ++ [final]) in *.
  assert (Hsteps : forall k j b p,
            (j + k = length rounds)%nat -> (0 < k)%nat ->
            exists s2,
              GameScreen.onSpinReady_times random sort k fuel
                (GameScreen.mkGameState rounds b p j (GameScreen.ready s) (GameScreen.turbo s)
                   (GameScreen.auto s) (GameScreen.bid s) (GameScreen.sound s) true) w2
              = Returned (s2, w2) /\
              GameScreen.locked s2 = false /\ GameScreen.rounds s2 = rounds /\
              GameScreen.profit s2 = profit (info final) /\
              GameScreen.balance s2 = info_balance (info final)).
  { induction k as [|k IH]; intros j b p Hjk Hk; [lia|].
    cbn [GameScreen.onSpinReady_times]. unfold GameScreen.onSpinReady.
    cbn [GameScreen.rounds GameScreen.round GameScreen.auto GameScreen.turbo
         GameScreen.locked GameScreen.bid GameScreen.ready GameScreen.sound].
    destruct (lookup_lt_is_Some_2 rounds j) as [rj Hrj]; [lia|].
    rewrite Hrj. cbn [required mbind result_bind].
    destruct (decide (k = 0%nat)) as [->|Hk0].
    - assert (Hnone : rounds !! S j = None) by (apply lookup_ge_None; lia).
      rewrite Hnone, bool_decide_eq_false_2 by (intros [? ?]; discriminate).
      rewrite Hauto, Hturbo. cbn [Z.ltb Z.compare].
      cbn [mbind result_bind GameScreen.onSpinReady_times].
      eexists. split; [reflexivity|].
      assert (Hfinal : rj = final).
      { subst rounds. rewrite length_app in Hjk. cbn [length] in Hjk.
        rewrite lookup_app_r in Hrj by lia.
        replace (j - length init)%nat with 0%nat in Hrj by lia.
        injection Hrj as <-. reflexivity. }
      subst rj.
      cbn [GameScreen.locked GameScreen.rounds GameScreen.profit GameScreen.balance].
      unfold GameScreen.info_of_profit, GameScreen.info_of_balance. tauto.
    - destruct (lookup_lt_is_Some_2 rounds (S j)) as [rj' Hrj']; [lia|].
      rewrite bool_decide_eq_true_2 by eauto.
      cbn [mbind result_bind]. apply IH; lia. }
  destruct (Hsteps (length rounds) 0%nat (balance (service w) - bid0)
              (GameScreen.profit s)) as (s2 & Hrun & Hlock & Hrounds & Hprofit & Hbalance).
  { lia. }
  { subst rounds. rewrite length_app. cbn [length]. lia. }
  exists s2. split; [exact Hrun|]. split; [exact Hlock|]. split; [exact Hrounds|].
  split; [congruence|].
  rewrite Hbalance, Hb, Hbal.
  destruct (idle_bid bid0 w) eqn:Hidle; [|lia].
  rewrite (spin_idle_rewards fuel bid0 w w2 rounds Hidle Hspin). lia.
Qed.

End Screen.

Lemma spin_cascade_keeps_witness :
  exists rounds w' r r',
    spin (source_of_kinds win_then_lose) insertion_sort 5 10 (new_GameService 100)
    = Returned (rounds, w') /\
    rounds !! 0%nat = Some r /\ rounds !! 1%nat = Some r' /\
    length (show r') = length (last r) /\
    forall p v, last r !! p = Some (Some v) -> show r' !! p = Some v.
Proof.
  destruct (spin (source_of_kinds win_then_lose) insertion_sort 5 10 (new_GameService 100))
    as [[rounds w']| |] eqn:Hspin; [|vm_compute in Hspin; discriminate..].
  destruct rounds as [|r [|r' rest]]; [vm_compute in Hspin; discriminate..|].
  exists (r :: r' :: rest), w', r, r'.
  split; [reflexivity|]. split; [reflexivity|]. split; [reflexivity|].
  apply (spin_cascade_keeps (source_of_kinds win_then_lose) insertion_sort 5 10
           (new_GameService 100) w' (r :: r' :: rest) 0 r r');
    [reflexivity|exact Hspin|reflexivity|reflexivity].
Defined.

Lemma spin_final_board_witness :
  exists rounds w',
    spin (source_of_kinds win_then_lose) insertion_sort 5 10 (new_GameService 100)
    = Returned (rounds, w') /\
    exists init final,
      rounds = init ++ [final] /\
      math final = ∅ /\ blow final = [] /\ move final = ∅ /\
      last final = Some <$> show final /\
      Forall (fun r => blow r <> []) init.
Proof.
  destruct (spin (source_of_kinds win_then_lose) insertion_sort 5 10 (new_GameService 100))
    as [[rounds w']| |] eqn:Hspin; [|vm_compute in Hspin; discriminate..].
  exists rounds, w'. split; [reflexivity|].
  apply (spin_final_board (source_of_kinds win_then_lose) insertion_sort
           insertion_sort_perm 5 10 (new_GameService 100) w' rounds Hspin).
Defined.

Lemma fakeItems_three_of_each_witness :
  filled_board (fakeItems (always (draw_of_kind 6)) insertion_sort (new_GameService 100)).1 /\
  (forall k, kind k ->
     tally k (fakeItems (always (draw_of_kind 6)) insertion_sort (new_GameService 100)).1
     = 3) /\
  findCombinations
    (groupItems (fakeItems (always (draw_of_kind 6)) insertion_sort (new_GameService 100)).1)
  = Some ∅ /\
  (fakeItems (always (draw_of_kind 6)) insertion_sort (new_GameService 100)).2
  = add_draws 30 (new_GameService 100).
Proof.
  apply (fakeItems_three_of_each (always (draw_of_kind 6)) insertion_sort
           insertion_sort_perm (new_GameService 100)).
Defined.

Lemma swap_marks_refilled_witness :
  exists rounds w' r r' item,
    spin (source_of_kinds win_then_lose) insertion_sort 5 10 (new_GameService 100)
    = Returned (rounds, w') /\
    rounds !! 0%nat = Some r /\ rounds !! 1%nat = Some r' /\
    show r' !! 0%nat = Some item /\
    (PlayDesk.swap (PlayDesk.itemProps (blow r') (move r') (last r) 0 item) = true
     <-> last r !! 0%nat = Some None).
Proof.
  destruct (spin (source_of_kinds win_then_lose) insertion_sort 5 10 (new_GameService 100))
    as [[rounds w']| |] eqn:Hspin; [|vm_compute in Hspin; discriminate..].
  destruct rounds as [|r [|r' rest]]; [vm_compute in Hspin; discriminate..|].
  destruct (show r' !! 0%nat) as [item|] eqn:Hitem;
    [|vm_compute in Hspin; injection Hspin as _ <- _ _; vm_compute in Hitem; discriminate].
  exists (r :: r' :: rest), w', r, r', item.
  split; [reflexivity|]. split; [reflexivity|]. split; [reflexivity|].
  split; [exact Hitem|].
  apply (swap_marks_refilled (source_of_kinds win_then_lose) insertion_sort 5 10
           (new_GameService 100) w' (r :: r' :: rest) 0 r r' 0 item);
    [reflexivity|exact Hspin|reflexivity|reflexivity|exact Hitem].
Defined.

Lemma screen_shows_wager_witness :
  exists s1 w1,
    GameScreen.doSpin (source_of_kinds win_then_lose) insertion_sort 5 10
      (GameScreen.initial 100) (new_GameService 100) = Returned (s1, w1) /\
    GameScreen.locked s1 = true /\ GameScreen.round s1 = 0%nat /\
    GameScreen.balance s1 = balance (service (new_GameService 100)) - 10 /\
    GameScreen.onClickSpin (source_of_kinds win_then_lose) insertion_sort 5 s1 w1
    = Returned (s1, w1) /\
    exists s2,
      GameScreen.onSpinReady_times (source_of_kinds win_then_lose) insertion_sort
        (length (GameScreen.rounds s1)) 5 s1 w1 = Returned (s2, w1) /\
      GameScreen.locked s2 = false /\
      GameScreen.rounds s2 = GameScreen.rounds s1 /\
      GameScreen.profit s2 = rewards (GameScreen.rounds s1) /\
      GameScreen.balance s2
      = (if idle_bid 10 (new_GameService 100) then balance (service w1) - 10
         else balance (service w1)).
Proof.
  destruct (GameScreen.doSpin (source_of_kinds win_then_lose) insertion_sort 5 10
              (GameScreen.initial 100) (new_GameService 100))
    as [[s1 w1]| |] eqn:Hspin; [|vm_compute in Hspin; discriminate..].
  exists s1, w1. split; [reflexivity|].
  apply (screen_shows_wager (source_of_kinds win_then_lose) insertion_sort
           insertion_sort_perm 5 10 (GameScreen.initial 100) s1 (new_GameService 100) w1);
    [reflexivity|reflexivity|exact Hspin].
Defined.
